(** * ProjectReportCreator: category mappers, jittered scatter plot and
      pivot-based bar charts

    A shallow embedding of [src/constants.py] and
    [src/utilities/graph_utils.py], followed by the properties of the
    reporting pipeline that the specification states about them.

    Conventions of the embedding.
    - A Python [str] is carried by a Rocq [string] holding its UTF-8
      encoding.  Equality of the encodings is equality of the strings, and
      the bytewise order [String.compare] is the code point order Python
      sorts by.  [PyStr.len] counts code points, as Python's [len] does.
    - A Python [dict] is an association list in insertion order
      ([PyDict.dict]); [.get], [.items()] and [Series.map] are read off it.
    - A float column of a pandas frame is a list of [option Q]: [None] is
      NaN, and arithmetic on the present values is exact (the rounding of
      binary64 is not part of the model of the jitter).  Where a result
      depends on the rounding, in the sampling of the colormap, the numbers
      are binary64 floats ([Binary64]).
    - [np.random.rand] reads the process-wide random source; the source is
      an explicit [RandomState] threaded through the calls.
    - The calls into pandas and matplotlib ([DataFrame.pivot], [fillna],
      [DataFrame.plot], [pyplot.scatter]) are modelled by what these
      libraries document for them; each such definition says so. *)

From Stdlib Require Import ZArith QArith Qround List String Ascii Bool Lia Lqa.
From Stdlib Require Import Sorted SetoidList OrderedTypeEx RelationClasses.
From Stdlib Require Import DecimalString DecimalZ Permutation.
From Stdlib Require SpecFloat.
Import ListNotations.

Local Open Scope string_scope.

(** ** Python strings *)

Module PyStr.

(** A byte [10xxxxxx] continues a code point begun by an earlier byte. *)
Definition is_continuation (c : ascii) : bool :=
  N.eqb (N.land (N_of_ascii c) 192) 128.

(** [len(s)]: the number of code points of [s]. *)
Fixpoint len (s : string) : nat :=
  match s with
  | EmptyString => 0
  | String c rest => if is_continuation c then len rest else S (len rest)
  end.

End PyStr.

(** ** Python dictionaries with string keys *)

Module PyDict.

Definition dict (V : Type) : Type := list (string * V).

(** [d[k]] when [k in d]: the value stored under the key. *)
Fixpoint lookup {V : Type} (d : dict V) (k : string) : option V :=
  match d with
  | [] => None
  | (k', v) :: rest => if String.eqb k' k then Some v else lookup rest k
  end.

(** [d.get(k, default)]. *)
Definition get {V : Type} (d : dict V) (k : string) (default : V) : V :=
  match lookup d k with
  | Some v => v
  | None => default
  end.

(** [d.keys()], [d.values()] and [d.items()], in insertion order. *)
Definition keys {V : Type} (d : dict V) : list string := map fst d.
Definition values {V : Type} (d : dict V) : list V := map snd d.
Definition items {V : Type} (d : dict V) : list (string * V) := d.

End PyDict.

(** ** src/constants.py *)

Module Constants.
Import PyDict.

Definition ENGINEERS : list string :=
  [ "Andy Oxford"; "Chris Kelly"; "Luke Phillips"; "Matthew Harbord";
    "Neil Griffin" ].

Definition STAGING_TEXT_REPRESENTATION : dict string :=
  [ ("Triage", "▰▱▱▱▱");
    ("Analysis", "▰▰▱▱▱");
    ("Alpha Test", "▰▰▰▱▱");
    ("Beta Test", "▰▰▰▰▱");
    ("Roll-out", "▰▰▰▰▰") ].

Definition PRIORITY_TEXT_REPRESENTATION : dict string :=
  [ ("P1", "P1 🔥");
    ("P2", "P2 🚨");
    ("P3", "P3 ⭐");
    ("P4", "P4 🐢");
    ("P5", "P5 🐌") ].

Definition get_staging_text (staging : string) : string :=
  get STAGING_TEXT_REPRESENTATION staging "-----".

Definition get_priority_text (priority : string) : string :=
  get PRIORITY_TEXT_REPRESENTATION priority "unknown".

End Constants.

(** ** The random source behind [np.random.rand] *)

Module NpRandom.

(** The process-wide generator: the draws it will hand out, and how many
    it has handed out so far. *)
Record RandomState : Type := {
  stream : nat -> Q;
  cursor : nat
}.

(** [np.random.rand] samples the half-open interval [[0, 1)]. *)
Definition uniform01 (st : RandomState) : Prop :=
  forall k : nat, 0 <= stream st k /\ stream st k < 1.

(** [np.random.rand(n)]: the next [n] draws, and the advanced source. *)
Definition rand (n : nat) (st : RandomState) : list Q * RandomState :=
  (map (fun k => stream st (cursor st + k)%nat) (seq 0 n),
   {| stream := stream st; cursor := (cursor st + n)%nat |}).

End NpRandom.

(** ** Binary64 floating point numbers *)

Module Binary64.

(** IEEE 754 double precision, rounding to nearest even. *)
Definition float : Type := SpecFloat.spec_float.

Definition prec : Z := 53.
Definition emax : Z := 1024.

(** The float nearest to an integer. *)
Definition of_Z (n : Z) : float :=
  SpecFloat.binary_normalize prec emax n 0 false.

Definition mul : float -> float -> float := SpecFloat.SFmul prec emax.
Definition div : float -> float -> float := SpecFloat.SFdiv prec emax.
Definition eqb : float -> float -> bool := SpecFloat.SFeqb.

(** [int(x)]: the integer part, towards zero. *)
Definition trunc (x : float) : Z :=
  match x with
  | SpecFloat.S754_finite s m e =>
      let a := match e with
               | Z0 => Zpos m
               | Zpos p => Z.shiftl (Zpos m) (Zpos p)
               | Zneg p => Z.shiftr (Zpos m) (Zpos p)
               end in
      if s then Z.opp a else a
  | _ => 0%Z
  end.

End Binary64.

(** ** src/utilities/graph_utils.py *)

Module GraphUtils.
Import PyDict NpRandom.

(** *** Scatter plot of effort against impact *)

(** A numeric pandas column; [None] is NaN. *)
Definition Series : Type := list (option Q).

(** [series + (draws - 0.5) * jitter_amount], element by element, in exact
    arithmetic: the code rounds the product and the sum to binary64, which
    moves a result by at most one unit in the last place.  NaN plus
    anything is NaN. *)
Definition jitter_value (jitter_amount : Q) (v : option Q) (r : Q)
  : option Q :=
  option_map (fun x => x + (r - (1 # 2)) * jitter_amount) v.

Fixpoint offset_by (jitter_amount : Q) (series : Series) (draws : list Q)
  : Series :=
  match series, draws with
  | v :: series', r :: draws' =>
      jitter_value jitter_amount v r :: offset_by jitter_amount series' draws'
  | _, _ => []
  end.

Definition add_jitter (series : Series) (jitter_amount : Q)
           (st : RandomState) : Series * RandomState :=
  let (draws, st') := rand (length series) st in
  (offset_by jitter_amount series draws, st').

Definition default_jitter_amount : Q := 1 # 10.

(** The three dictionaries built at the head of [load_and_prepare_data]. *)
Definition effort_mapping : dict Z :=
  [ ("Hours", 1%Z); ("Days", 2%Z); ("Weeks", 3%Z); ("Months", 4%Z);
    ("Quarters", 5%Z) ].

Definition impact_mapping : dict Z :=
  [ ("Very Low", 1%Z); ("Low", 2%Z); ("Medium", 3%Z); ("High", 4%Z);
    ("Very High", 5%Z) ].

Definition priority_color_mapping : dict string :=
  [ ("P1 🔥", "red"); ("P2", "orange"); ("P3", "green"); ("P4", "blue") ].

(** A row of the project CSV, as [pd.read_csv] hands it over. *)
Record ProjectRecord : Type := {
  Priority : string;
  Estimated_Effort : string;
  Estimated_Impact : string
}.

(** The same row with the three columns [load_and_prepare_data] adds. *)
Record PreparedRecord : Type := {
  record : ProjectRecord;
  Numerical_Effort : option Q;
  Numerical_Impact : option Q;
  Color : option string
}.

(** [Series.map(d)] on one label: the mapped value, NaN for a label that
    is not a key of [d]. *)
Definition series_map {V : Type} (d : dict V) (label : string) : option V :=
  lookup d label.

Definition prepare (r : ProjectRecord) : PreparedRecord :=
  {| record := r;
     Numerical_Effort :=
       option_map inject_Z (series_map effort_mapping (Estimated_Effort r));
     Numerical_Impact :=
       option_map inject_Z (series_map impact_mapping (Estimated_Impact r));
     Color := series_map priority_color_mapping (Priority r) |}.

(** [load_and_prepare_data], from the rows read off the CSV file. *)
Definition load_and_prepare_data (project_df : list ProjectRecord)
  : list PreparedRecord * dict string :=
  (map prepare project_df, priority_color_mapping).

(** [df[df['Priority'] == priority]]. *)
Definition subset (df : list PreparedRecord) (priority : string)
  : list PreparedRecord :=
  filter (fun r => String.eqb (Priority (record r)) priority) df.

(** [df[df['Color'] == color]]: the rows whose [Color] column holds
    [color]; NaN equals nothing. *)
Definition colored (df : list PreparedRecord) (color : string)
  : list PreparedRecord :=
  filter (fun r => match Color r with
                   | Some c => String.eqb c color
                   | None => false
                   end) df.

(** One call [plt.scatter(x, y, c=color, label=priority, ...)]. *)
Record ScatterCall : Type := {
  scatter_x : Series;
  scatter_y : Series;
  scatter_c : string;
  scatter_label : string
}.

(** The body of the [for priority, color in ....items()] loop. *)
Fixpoint scatter_loop (pairs : list (string * string))
         (df : list PreparedRecord) (jitter_amount : Q) (st : RandomState)
  : list ScatterCall * RandomState :=
  match pairs with
  | [] => ([], st)
  | (priority, color) :: rest =>
      let sub := subset df priority in
      let (xs, st1) := add_jitter (map Numerical_Effort sub) jitter_amount st in
      let (ys, st2) := add_jitter (map Numerical_Impact sub) jitter_amount st1 in
      let (calls, st3) := scatter_loop rest df jitter_amount st2 in
      ({| scatter_x := xs; scatter_y := ys;
          scatter_c := color; scatter_label := priority |} :: calls, st3)
  end.

Definition create_scatter_plot (df : list PreparedRecord)
           (priority_color_mapping : dict string) (jitter_amount : Q)
           (st : RandomState) : list ScatterCall * RandomState :=
  scatter_loop (items priority_color_mapping) df jitter_amount st.

(** The rows behind a call: the loop builds the call labelled [priority]
    from [df[df['Priority'] == priority]], row by row. *)
Definition series_records (df : list PreparedRecord) (call : ScatterCall)
  : list PreparedRecord :=
  subset df (scatter_label call).

(** What [pyplot.scatter] draws for a call, position by position:
    matplotlib masks every point with a NaN coordinate and draws a marker
    for each of the others. *)
Fixpoint markers (xs ys : Series) : list (option (Q * Q)) :=
  match xs, ys with
  | x :: xs', y :: ys' =>
      match x, y with
      | Some a, Some b => Some (a, b)
      | _, _ => None
      end :: markers xs' ys'
  | _, _ => []
  end.

Definition drawn (call : ScatterCall) : list (option (Q * Q)) :=
  markers (scatter_x call) (scatter_y call).

(** *** Pivot tables of resolved items *)

(** A row of the resolved-items frame. *)
Record ResolvedRow : Type := {
  YearMonth : string;
  Closed_by : string;
  ResolvedCount : Z
}.

Inductive PandasError : Type :=
| ValueError (message : string)
| TypeError (message : string).

(** A pandas frame with string labels on both axes; [None] is NaN. *)
Record Frame : Type := {
  index : list string;
  columns : list string;
  cells : list (list (option Z))
}.

(** The labels of an axis of a pivoted frame: the distinct values of the
    column, in ascending order. *)
Fixpoint insert_unique (k : string) (l : list string) : list string :=
  match l with
  | [] => [k]
  | h :: t =>
      match String.compare k h with
      | Lt => k :: l
      | Eq => l
      | Gt => h :: insert_unique k t
      end
  end.

Definition sorted_unique (l : list string) : list string :=
  fold_right insert_unique [] l.

(** The order of the labels: code point by code point. *)
Definition str_lt (a b : string) : Prop := String.compare a b = Lt.

(** Equality of two (index label, column label) pairs. *)
Definition key_eqb (a b : string * string) : bool :=
  String.eqb (fst a) (fst b) && String.eqb (snd a) (snd b).

(** Whether some pair of labels occurs more than once. *)
Fixpoint has_duplicates (l : list (string * string)) : bool :=
  match l with
  | [] => false
  | k :: t => existsb (key_eqb k) t || has_duplicates t
  end.

Section Pivot.
(** The columns named by [index=], [columns=] and [values=]. *)
Variables (idx col : ResolvedRow -> string) (val : ResolvedRow -> Z).

Definition pivot_key (r : ResolvedRow) : string * string := (idx r, col r).

(** The value at the crossing of two labels: that of the row carrying
    both, NaN when there is none. *)
Definition cell (df : list ResolvedRow) (i c : string) : option Z :=
  option_map val (find (fun r => key_eqb (pivot_key r) (i, c)) df).

(** [df.pivot(index=, columns=, values=)], as pandas documents it: the
    frame is reshaped on the sorted distinct labels of the two columns,
    a crossing without a row holds NaN, and two rows with the same pair
    of labels raise [ValueError]. *)
Definition pivot (df : list ResolvedRow) : PandasError + Frame :=
  if has_duplicates (map pivot_key df)
  then inl (ValueError "Index contains duplicate entries, cannot reshape")
  else
    let rows := sorted_unique (map idx df) in
    let cols := sorted_unique (map col df) in
    inr {| index := rows;
           columns := cols;
           cells := map (fun i => map (fun c => cell df i c) cols) rows |}.
End Pivot.

(** [frame.fillna(v)]. *)
Definition fill (v : Z) (x : option Z) : option Z :=
  match x with
  | Some y => Some y
  | None => Some v
  end.

Definition fillna (v : Z) (f : Frame) : Frame :=
  {| index := index f;
     columns := columns f;
     cells := map (map (fill v)) (cells f) |}.

(** [frame.at[r, c]]: [None] when a label is not on its axis. *)
Fixpoint position (k : string) (l : list string) : option nat :=
  match l with
  | [] => None
  | h :: t => if String.eqb h k then Some O else option_map S (position k t)
  end.

Definition at_ (f : Frame) (r c : string) : option (option Z) :=
  match position r (index f), position c (columns f) with
  | Some i, Some j =>
      match nth_error (cells f) i with
      | Some row => nth_error row j
      | None => None
      end
  | _, _ => None
  end.

(** [frame.sum().sum()]: NaN cells are skipped. *)
Definition nan_to_zero (x : option Z) : Z :=
  match x with
  | Some y => y
  | None => 0%Z
  end.

Definition sum_Z (l : list Z) : Z := fold_right Z.add 0%Z l.

Definition frame_sum (f : Frame) : Z :=
  sum_Z (map (fun row => sum_Z (map nan_to_zero row)) (cells f)).

(** *** Bar charts *)

(** matplotlib's qualitative colormap [tab20]. *)
Definition tab20 : list string :=
  [ "#1f77b4"; "#aec7e8"; "#ff7f0e"; "#ffbb78"; "#2ca02c"; "#98df8a";
    "#d62728"; "#ff9896"; "#9467bd"; "#c5b0d5"; "#8c564b"; "#c49c94";
    "#e377c2"; "#f7b6d2"; "#7f7f7f"; "#c7c7c7"; "#bcbd22"; "#dbdb8d";
    "#17becf"; "#9edae5" ].

(** [np.linspace(0, 1, num)[i]] in binary64, as numpy computes it: the
    step is [1 / (num - 1)], the points are [i * step], and the last point
    is set to 1. *)
Definition linspace01 (num i : nat) : Binary64.float :=
  if (num <=? 1)%nat then Binary64.of_Z 0
  else if (i =? num - 1)%nat then Binary64.of_Z 1
  else Binary64.mul (Binary64.of_Z (Z.of_nat i))
                    (Binary64.div (Binary64.of_Z 1)
                                  (Binary64.of_Z (Z.of_nat (num - 1)))).

(** The entry of a listed colormap of [n] colours that a float in
    [[0, 1]] selects: [int(x * n)] in binary64, with [x * n = n] sent to
    the last entry. *)
Definition colormap_index (n : nat) (x : Binary64.float) : nat :=
  let xa := Binary64.mul x (Binary64.of_Z (Z.of_nat n)) in
  if Binary64.eqb xa (Binary64.of_Z (Z.of_nat n)) then (n - 1)%nat
  else
    let k := Z.to_nat (Binary64.trunc xa) in
    if (n <=? k)%nat then (n - 1)%nat else k.

(** The colours pandas derives from [cmap='tab20'] for [num_colors]
    series: the colormap sampled at [num_colors] evenly spaced points. *)
Definition get_colors (num_colors : nat) : list string :=
  map (fun i => nth (colormap_index (length tab20) (linspace01 num_colors i))
                    tab20 "")
      (seq 0 num_colors).

Record Bar : Type := {
  bar_tick : string;
  bar_series : string;
  bar_color : string;
  bar_height : option Z
}.

(** A bar chart: whether it is stacked, the label and the colour of each
    series in the order in which they are drawn and offered to the legend,
    and the bars. *)
Record BarChart : Type := {
  chart_stacked : bool;
  chart_legend : list (string * string);
  chart_bars : list Bar
}.



(** The value a row of the frame holds in its [j]-th column. *)
Definition column_cell (row : list (option Z)) (j : nat) : option Z :=
  match nth_error row j with
  | Some h => h
  | None => None
  end.

(** What [frame.plot(kind='bar', stacked=, cmap='tab20')] draws for a
    frame that has data: one series per column, coloured in column order,
    with one bar per index label whose height is the cell; a NaN height
    draws nothing. *)
Definition plot_bar (stacked : bool) (f : Frame) : BarChart :=
  let legend := combine (columns f) (get_colors (length (columns f))) in
  {| chart_stacked := stacked;
     chart_legend := legend;
     chart_bars :=
       concat
         (map (fun entry : nat * (string * string) =>
                 let '(j, (c, colour)) := entry in
                 map (fun line : string * list (option Z) =>
                        {| bar_tick := fst line;
                           bar_series := c;
                           bar_color := colour;
                           bar_height := column_cell (snd line) j |})
                     (combine (index f) (cells f)))
              (combine (seq 0 (length legend)) legend)) |}.


(** What follows a pivot that raised is not run. *)
Definition on_frame {A : Type} (k : Frame -> A) (r : PandasError + Frame)
  : PandasError + A :=
  match r with
  | inl e => inl e
  | inr f => inr (k f)
  end.

(** The pivot table of [plot_resolved_items_per_month] and of
    [plot_grouped_resolved_items_per_month]: months down, engineers
    across. *)
Definition month_by_engineer (df : list ResolvedRow) : PandasError + Frame :=
  on_frame (fillna 0) (pivot YearMonth Closed_by ResolvedCount df).

(** The pivot table of [plot_engineer_grouped_resolved_items]: engineers
    down, months across. *)
Definition engineer_by_month (df : list ResolvedRow) : PandasError + Frame :=
  on_frame (fillna 0) (pivot Closed_by YearMonth ResolvedCount df).

(** [frame.plot(kind='bar', ...)]: pandas raises [TypeError] when the
    frame has no numeric column to plot, as the pivot of a frame without
    rows has none. *)
Definition frame_plot (stacked : bool) (f : Frame) : PandasError + BarChart :=
  match columns f with
  | [] => inl (TypeError "no numeric data to plot")
  | _ :: _ => inr (plot_bar stacked f)
  end.

Definition and_plot (stacked : bool) (r : PandasError + Frame)
  : PandasError + BarChart :=
  match r with
  | inl e => inl e
  | inr f => frame_plot stacked f
  end.

Definition plot_resolved_items_per_month (df : list ResolvedRow)
  : PandasError + BarChart :=
  and_plot true (month_by_engineer df).

Definition plot_grouped_resolved_items_per_month (df : list ResolvedRow)
  : PandasError + BarChart :=
  and_plot false (month_by_engineer df).

Definition plot_engineer_grouped_resolved_items (df : list ResolvedRow)
  : PandasError + BarChart :=
  and_plot false (engineer_by_month df).

(** *** Age of open tickets by assignee *)

(** A row of the frame [create_age_bar_chart] is given. *)
Record AgeRow : Type := {
  AssignedTo : string;
  Age_BusinessDays : Q;
  TicketCount : Z
}.

(** The categories of a string axis: matplotlib numbers the distinct labels
    0, 1, 2, ... in the order in which they first appear. *)
Fixpoint categories (labels : list string) : list string :=
  match labels with
  | [] => []
  | l :: rest =>
      l :: filter (fun x => negb (String.eqb l x)) (categories rest)
  end.

Definition category_index (labels : list string) (k : string) : nat :=
  match position k (categories labels) with
  | Some i => i
  | None => O
  end.

Record Rectangle : Type := {
  rect_x : Q;
  rect_y : Q;
  rect_width : Q;
  rect_height : Q;
  rect_color : string
}.

Record Text : Type := {
  text_x : Q;
  text_y : Q;
  text_s : string
}.

(** [plt.barh(y, width, color=)] on a string axis: one rectangle per row,
    starting at 0 and as long as the width, 0.8 high and centred on the
    number of its label. *)
Definition barh (y : list string) (width : list Q) (color : string)
  : list Rectangle :=
  map (fun p : string * Q =>
         {| rect_x := 0;
            rect_y := inject_Z (Z.of_nat (category_index y (fst p))) - (4 # 10);
            rect_width := snd p;
            rect_height := 8 # 10;
            rect_color := color |})
      (combine y width).

(** [str(n)] of an integer: its decimal digits, with a minus sign when it
    is negative. *)
Definition str_of_int (n : Z) : string :=
  DecimalString.NilZero.string_of_int (Z.to_int n).

Record AgeChart : Type := {
  age_bars : list Rectangle;
  age_texts : list Text
}.

(** [create_age_bar_chart]: the bars, and for each bar zipped with the
    ticket count of its row the text written at its end.  The inverted
    y axis puts the first category on top. *)
Definition create_age_bar_chart (df : list AgeRow) : AgeChart :=
  let bars := barh (map AssignedTo df) (map Age_BusinessDays df) "skyblue" in
  {| age_bars := bars;
     age_texts :=
       map (fun p : Rectangle * Z =>
              let (bar, count) := p in
              let width := rect_width bar in
              {| text_x := width;
                 text_y := rect_y bar + rect_height bar / 2;
                 text_s := str_of_int count ++ " tickets" |})
           (combine bars (map TicketCount df)) |}.

End GraphUtils.

(** ** Sample inputs *)

Module Samples.
Import NpRandom GraphUtils.

(** A random source whose every draw is one quarter. *)
Definition quarter_source : RandomState :=
  {| stream := fun _ => 1 # 4; cursor := 0 |}.

Definition project (priority effort impact : string) : ProjectRecord :=
  {| Priority := priority;
     Estimated_Effort := effort;
     Estimated_Impact := impact |}.

Definition sample_projects : list ProjectRecord :=
  [ project "P2" "Days" "High";
    project "P1" "Hours" "Low";
    project "P2" "Sprints" "Medium";
    project "P5" "Weeks" "Very High";
    project "P3" "Months" "Critical" ].

Definition sample_frame : list PreparedRecord :=
  fst (load_and_prepare_data sample_projects).

Definition sample_plots : list ScatterCall :=
  fst (create_scatter_plot sample_frame
                           (snd (load_and_prepare_data sample_projects))
                           default_jitter_amount quarter_source).

(** One resolved-items row: engineer, month, count. *)
Definition triple (engineer month : string) (count : Z) : ResolvedRow :=
  {| YearMonth := month; Closed_by := engineer; ResolvedCount := count |}.

(** The three triples of the specification's scenario, and the same data
    with the two counts of A in January added up beforehand. *)
Definition scenario : list ResolvedRow :=
  [ triple "A" "Jan" 3; triple "A" "Jan" 2; triple "B" "Feb" 5 ].

Definition scenario_merged : list ResolvedRow :=
  [ triple "A" "Jan" 5; triple "B" "Feb" 5 ].


(** The same engineers listed in the opposite order, over two months. *)
Definition shuffled_engineers : list ResolvedRow :=
  [ triple "Luke" "2024-02" 4; triple "Chris" "2024-01" 2;
    triple "Andy" "2024-02" 7 ].

Definition ordered_engineers : list ResolvedRow :=
  [ triple "Andy" "2024-01" 1; triple "Chris" "2024-03" 9;
    triple "Luke" "2024-01" 3; triple "Andy" "2024-03" 2 ].

(** Open tickets by assignee; Chris appears on two rows. *)
Definition ticket (assignee : string) (age : Q) (count : Z) : AgeRow :=
  {| AssignedTo := assignee; Age_BusinessDays := age; TicketCount := count |}.

Definition open_tickets : list AgeRow :=
  [ ticket "Chris" 12 3; ticket "Andy" 30 7; ticket "Chris" 4 1;
    ticket "Neil" 0 0; ticket "Luke" 9 3 ].

(** Two months of work of three of the engineers of [ENGINEERS]. *)
Definition team_rows : list ResolvedRow :=
  [ triple "Neil Griffin" "2024-01" 4; triple "Andy Oxford" "2024-02" 6;
    triple "Chris Kelly" "2024-01" 1; triple "Neil Griffin" "2024-02" 2 ].

End Samples.

(** * Properties *)

Import PyDict NpRandom Constants GraphUtils Samples.

(** ** Dictionaries *)

Section DictFacts.
Context {V : Type}.

Lemma lookup_none_iff (d : dict V) (k : string) :
  lookup d k = None <-> ~ In k (keys d).
Proof.
  induction d as [|[k' v] d IH]; simpl.
  - tauto.
  - destruct (String.eqb_spec k' k) as [->|Hne].
    + split; [discriminate | tauto].
    + rewrite IH. unfold keys. tauto.
Qed.

Lemma lookup_some_in (d : dict V) (k : string) (v : V) :
  lookup d k = Some v -> In (k, v) d.
Proof.
  induction d as [|[k' v'] d IH]; simpl; [discriminate|].
  destruct (String.eqb_spec k' k) as [->|Hne].
  - intros [= ->]. now left.
  - intros H. right. now apply IH.
Qed.

Lemma lookup_in_nodup (d : dict V) (k : string) (v : V) :
  NoDup (keys d) -> In (k, v) d -> lookup d k = Some v.
Proof.
  induction d as [|[k' v'] d IH]; simpl; [tauto|].
  intros Hnd [Heq|Hin].
  - injection Heq as -> ->. now rewrite String.eqb_refl.
  - inversion Hnd as [|? ? Hnotin Hnd']; subst.
    destruct (String.eqb_spec k' k) as [->|Hne].
    + exfalso. apply Hnotin. unfold keys.
      change k with (fst (k, v)). now apply in_map.
    + now apply IH.
Qed.

Lemma get_missing (d : dict V) (k : string) (default : V) :
  ~ In k (keys d) -> get d k default = default.
Proof.
  intros H. unfold get. apply lookup_none_iff in H. now rewrite H.
Qed.

Lemma get_present (d : dict V) (k : string) (v default : V) :
  NoDup (keys d) -> In (k, v) d -> get d k default = v.
Proof.
  intros Hnd Hin. unfold get. now rewrite (lookup_in_nodup d k v Hnd Hin).
Qed.

Lemma get_invariant (P : V -> Prop) (d : dict V) (k : string) (default : V) :
  Forall P (values d) -> P default -> P (get d k default).
Proof.
  intros Hall Hdef. unfold get.
  destruct (lookup d k) as [v|] eqn:Hk; [|assumption].
  apply lookup_some_in in Hk.
  rewrite Forall_forall in Hall. apply Hall.
  unfold values. change v with (snd (k, v)). now apply in_map.
Qed.

End DictFacts.

Lemma staging_keys_nodup : NoDup (keys STAGING_TEXT_REPRESENTATION).
Proof.
  unfold keys; simpl.
  repeat constructor; simpl; intuition discriminate.
Qed.

Lemma priority_keys_nodup : NoDup (keys PRIORITY_TEXT_REPRESENTATION).
Proof.
  unfold keys; simpl.
  repeat constructor; simpl; intuition discriminate.
Qed.

(** ** Category mappers *)

(** C2. A label that is not a key of the table gets the fixed default of
    its mapper ("unknown" for priorities, "-----" for stagings); a label
    that is a key gets the glyph string stored under it.  Both mappers are
    total functions, so no label makes them fail. *)
Theorem text_mappers_default (label : string) :
  (~ In label (keys PRIORITY_TEXT_REPRESENTATION) ->
   get_priority_text label = "unknown") /\
  (~ In label (keys STAGING_TEXT_REPRESENTATION) ->
   get_staging_text label = "-----") /\
  (forall glyphs, In (label, glyphs) PRIORITY_TEXT_REPRESENTATION ->
                  get_priority_text label = glyphs) /\
  (forall glyphs, In (label, glyphs) STAGING_TEXT_REPRESENTATION ->
                  get_staging_text label = glyphs).
Proof.
  unfold get_priority_text, get_staging_text.
  repeat split; intros.
  - now apply get_missing.
  - now apply get_missing.
  - apply get_present; [apply priority_keys_nodup | assumption].
  - apply get_present; [apply staging_keys_nodup | assumption].
Qed.

Lemma text_mappers_default_witness :
  get_priority_text "P9" = "unknown" /\
  get_staging_text "Deployed" = "-----" /\
  get_priority_text "P1" = "P1 🔥" /\
  get_staging_text "Triage" = "▰▱▱▱▱".
Proof.
  split; [|split; [|split]].
  - apply (proj1 (text_mappers_default "P9")).
    unfold keys, PRIORITY_TEXT_REPRESENTATION; simpl. intuition discriminate.
  - apply (proj1 (proj2 (text_mappers_default "Deployed"))).
    unfold keys, STAGING_TEXT_REPRESENTATION; simpl. intuition discriminate.
  - apply (proj1 (proj2 (proj2 (text_mappers_default "P1")))). simpl. now left.
  - apply (proj2 (proj2 (proj2 (text_mappers_default "Triage")))). simpl. now left.
Defined.

(** C9. Whatever the label, [get_staging_text] answers with a string of
    five characters: the five glyph strings of the table and the fallback
    all have length five. *)
Theorem staging_text_width (staging : string) :
  PyStr.len (get_staging_text staging) = 5%nat.
Proof.
  unfold get_staging_text. apply get_invariant.
  - unfold values, STAGING_TEXT_REPRESENTATION; simpl.
    repeat constructor.
  - reflexivity.
Qed.

(** ** Jitter *)

Lemma offset_by_nth (m : Q) (f : nat -> Q) (series : Series) :
  forall a i : nat,
    nth_error (offset_by m series (map f (seq a (length series)))) i =
    option_map (fun v => jitter_value m v (f (a + i)%nat)) (nth_error series i).
Proof.
  induction series as [|v series IH]; intros a i; simpl.
  - now destruct i.
  - destruct i as [|i]; simpl.
    + now rewrite Nat.add_0_r.
    + rewrite IH. now rewrite Nat.add_succ_comm.
Qed.

Lemma add_jitter_nth (series : Series) (m : Q) (st : RandomState) (i : nat) :
  nth_error (fst (add_jitter series m st)) i =
  option_map (fun v => jitter_value m v (stream st (cursor st + i)%nat))
             (nth_error series i).
Proof.
  unfold add_jitter, rand. simpl.
  apply (offset_by_nth m (fun k => stream st (cursor st + k)%nat) series 0 i).
Qed.

Lemma offset_by_length (m : Q) (series : Series) :
  forall draws : list Q,
    length draws = length series ->
    length (offset_by m series draws) = length series.
Proof.
  induction series as [|v series IH]; intros [|r draws] Hlen; simpl in *;
    try reflexivity; try discriminate.
  f_equal. apply IH. now injection Hlen.
Qed.

Lemma add_jitter_length (series : Series) (m : Q) (st : RandomState) :
  length (fst (add_jitter series m st)) = length series.
Proof.
  unfold add_jitter, rand. simpl.
  apply offset_by_length. now rewrite length_map, length_seq.
Qed.

Lemma add_jitter_stream (series : Series) (m : Q) (st : RandomState) :
  stream (snd (add_jitter series m st)) = stream st.
Proof. reflexivity. Qed.

Lemma jitter_bounds (v r m : Q) :
  0 <= r -> r < 1 -> 0 <= m ->
  v - m / 2 <= v + (r - (1 # 2)) * m /\ v + (r - (1 # 2)) * m <= v + m / 2.
Proof.
  intros H0 H1 Hm.
  assert (Hlo : - (1 # 2) * m <= (r - (1 # 2)) * m)
    by (apply Qmult_le_compat_r; lra).
  assert (Hhi : (r - (1 # 2)) * m <= (1 # 2) * m)
    by (apply Qmult_le_compat_r; lra).
  assert (E : m / 2 == (1 # 2) * m) by field.
  rewrite E. split; lra.
Qed.

(** C3. With draws taken from [[0, 1)] and a magnitude [m >= 0],
    [add_jitter] returns a sequence of the length of its input in which the
    element at each position lies within [m / 2] of the input element at
    that position; with [m = 0] it equals the input element. *)
Theorem add_jitter_within (series : Series) (m : Q) (st : RandomState)
        (i : nat) (v : Q) :
  uniform01 st ->
  0 <= m ->
  nth_error series i = Some (Some v) ->
  length (fst (add_jitter series m st)) = length series /\
  exists o : Q,
    nth_error (fst (add_jitter series m st)) i = Some (Some o) /\
    v - m / 2 <= o /\ o <= v + m / 2 /\
    (m == 0 -> o == v).
Proof.
  intros Hst Hm Hi. split; [apply add_jitter_length|].
  exists (v + (stream st (cursor st + i)%nat - (1 # 2)) * m).
  split.
  - rewrite add_jitter_nth, Hi. reflexivity.
  - destruct (Hst (cursor st + i)%nat) as [H0 H1].
    destruct (jitter_bounds v _ m H0 H1 Hm) as [Hlo Hhi].
    repeat split; try assumption.
    intros Hz. rewrite Hz. ring.
Qed.

Lemma quarter_source_uniform : uniform01 quarter_source.
Proof. intros k. simpl. split; [discriminate | reflexivity]. Qed.

Lemma add_jitter_within_witness :
  uniform01 quarter_source /\
  0 <= 1 # 10 /\
  exists o : Q,
    nth_error (fst (add_jitter [Some 3; None] (1 # 10) quarter_source)) 0
    = Some (Some o) /\
    3 - (1 # 10) / 2 <= o /\ o <= 3 + (1 # 10) / 2.
Proof.
  split; [exact quarter_source_uniform|].
  split; [discriminate|].
  destruct (add_jitter_within [Some 3; None] (1 # 10) quarter_source 0 3)
    as [_ [o [H1 [H2 [H3 _]]]]].
  - exact quarter_source_uniform.
  - discriminate.
  - reflexivity.
  - exists o. auto.
Defined.

(** ** Scatter plot *)

Lemma subset_in (df : list PreparedRecord) (priority : string)
      (r : PreparedRecord) :
  In r (subset df priority) <-> In r df /\ Priority (record r) = priority.
Proof.
  unfold subset. rewrite filter_In. now rewrite String.eqb_eq.
Qed.

Lemma scatter_loop_legend (pairs : list (string * string))
      (df : list PreparedRecord) (m : Q) :
  forall st : RandomState,
    map (fun call => (scatter_label call, scatter_c call))
        (fst (scatter_loop pairs df m st)) = pairs.
Proof.
  induction pairs as [|[priority color] rest IH]; intros st; simpl.
  - reflexivity.
  - destruct (scatter_loop rest df m _) as [calls st3] eqn:Hrest. simpl.
    f_equal. specialize (IH (snd (add_jitter
      (map Numerical_Impact (subset df priority)) m
      (snd (add_jitter (map Numerical_Effort (subset df priority)) m st))))).
    unfold add_jitter, rand in IH. simpl in IH.
    rewrite Hrest in IH. exact IH.
Qed.

Lemma scatter_loop_calls (pairs : list (string * string))
      (df : list PreparedRecord) (m : Q) :
  forall (st : RandomState) (call : ScatterCall),
    In call (fst (scatter_loop pairs df m st)) ->
    exists st1 st2 : RandomState,
      stream st1 = stream st /\ stream st2 = stream st /\
      scatter_x call =
        fst (add_jitter (map Numerical_Effort (series_records df call)) m st1) /\
      scatter_y call =
        fst (add_jitter (map Numerical_Impact (series_records df call)) m st2).
Proof.
  induction pairs as [|[priority color] rest IH]; intros st call; simpl.
  - tauto.
  - destruct (scatter_loop rest df m _) as [calls st3] eqn:Hrest. simpl.
    intros [<-|Hin].
    + exists st.
      exists (snd (add_jitter (map Numerical_Effort (subset df priority)) m st)).
      unfold series_records. simpl. auto.
    + match type of Hrest with
      | scatter_loop rest df m ?s = _ =>
          destruct (IH s call) as [st1 [st2 [E1 [E2 [Hx Hy]]]]]
      end.
      * now rewrite Hrest.
      * exists st1, st2. simpl in E1, E2. auto.
Qed.

Lemma scatter_label_is_key (df : list PreparedRecord) (mapping : dict string)
      (m : Q) (st : RandomState) (call : ScatterCall) :
  In call (fst (create_scatter_plot df mapping m st)) ->
  In (scatter_label call, scatter_c call) (items mapping).
Proof.
  intros Hin. unfold create_scatter_plot in Hin.
  rewrite <- (scatter_loop_legend (items mapping) df m st).
  now apply (in_map (fun c => (scatter_label c, scatter_c c))).
Qed.

Lemma item_key_in (mapping : dict string) (k c : string) :
  In (k, c) (items mapping) -> In k (keys mapping).
Proof.
  intros H. unfold keys. change k with (fst (k, c)). now apply in_map.
Qed.

Lemma markers_nth (xs ys : Series) :
  forall i : nat,
    nth_error (markers xs ys) i =
    match nth_error xs i, nth_error ys i with
    | Some x, Some y =>
        Some match x, y with
             | Some a, Some b => Some (a, b)
             | _, _ => None
             end
    | _, _ => None
    end.
Proof.
  revert ys. induction xs as [|x xs IH]; intros [|y ys] [|i]; simpl;
    try reflexivity.
  - now destruct (nth_error xs i).
  - apply IH.
Qed.

(** C6. [create_scatter_plot] issues one scatter call per item of the
    colour mapping, in the order of the mapping, labelled with the key and
    coloured with the value.  The call of a key is built, row by row, from
    the rows whose priority equals the key: its two coordinate sequences are
    the jittered effort and impact ranks of exactly these rows.  A row whose
    priority is no key of the mapping is behind no call. *)
Theorem scatter_series_partition (df : list PreparedRecord)
        (mapping : dict string) (m : Q) (st : RandomState) :
  let plots := fst (create_scatter_plot df mapping m st) in
  map (fun call => (scatter_label call, scatter_c call)) plots = items mapping /\
  (forall call : ScatterCall,
      In call plots ->
      (forall r : PreparedRecord,
          In r (series_records df call) <->
          In r df /\ Priority (record r) = scatter_label call) /\
      length (scatter_x call) = length (series_records df call) /\
      length (scatter_y call) = length (series_records df call) /\
      exists st1 st2 : RandomState,
        scatter_x call =
          fst (add_jitter (map Numerical_Effort (series_records df call)) m st1) /\
        scatter_y call =
          fst (add_jitter (map Numerical_Impact (series_records df call)) m st2)) /\
  (forall r : PreparedRecord,
      In r df ->
      ~ In (Priority (record r)) (keys mapping) ->
      forall call : ScatterCall,
        In call plots -> ~ In r (series_records df call)).
Proof.
  cbv zeta. split; [|split].
  - apply scatter_loop_legend.
  - intros call Hin. split; [intros r; apply subset_in|].
    destruct (scatter_loop_calls _ _ _ _ _ Hin) as [st1 [st2 [_ [_ [Hx Hy]]]]].
    split; [|split].
    + now rewrite Hx, add_jitter_length, length_map.
    + now rewrite Hy, add_jitter_length, length_map.
    + now exists st1, st2.
  - intros r Hr Hnot call Hin Hsub.
    apply subset_in in Hsub. destruct Hsub as [_ Heq].
    apply Hnot. rewrite Heq.
    apply (item_key_in mapping _ (scatter_c call)).
    now apply (scatter_label_is_key df mapping m st).
Qed.

Lemma scatter_series_partition_witness :
  exists call : ScatterCall,
    nth_error sample_plots 1 = Some call /\
    scatter_label call = "P2" /\
    In (prepare (project "P1" "Hours" "Low")) sample_frame /\
    ~ In "P1" (keys priority_color_mapping) /\
    ~ In (prepare (project "P1" "Hours" "Low")) (series_records sample_frame call).
Proof.
  eexists. split; [vm_compute; reflexivity|].
  split; [reflexivity|].
  assert (Hrow : In (prepare (project "P1" "Hours" "Low")) sample_frame)
    by (simpl; auto).
  assert (Hkey : ~ In "P1" (keys priority_color_mapping))
    by (unfold keys, priority_color_mapping; simpl; intuition discriminate).
  split; [exact Hrow|]. split; [exact Hkey|].
  destruct (scatter_series_partition sample_frame priority_color_mapping
              default_jitter_amount quarter_source) as [_ [_ Hdrop]].
  apply (Hdrop _ Hrow Hkey).
  apply (nth_error_In _ 1). vm_compute. reflexivity.
Defined.

Lemma series_map_missing {V : Type} (d : dict V) (label : string) :
  ~ In label (keys d) -> series_map d label = None.
Proof. intros H. unfold series_map. now apply lookup_none_iff. Qed.

Lemma call_coordinates (df : list PreparedRecord) (mapping : dict string)
      (m : Q) (st : RandomState) (call : ScatterCall) (i : nat)
      (p : PreparedRecord) :
  In call (fst (create_scatter_plot df mapping m st)) ->
  nth_error (series_records df call) i = Some p ->
  exists rx ry : Q,
    nth_error (scatter_x call) i = Some (jitter_value m (Numerical_Effort p) rx) /\
    nth_error (scatter_y call) i = Some (jitter_value m (Numerical_Impact p) ry).
Proof.
  intros Hin Hp.
  destruct (scatter_loop_calls _ _ _ _ _ Hin) as [st1 [st2 [_ [_ [Hx Hy]]]]].
  exists (stream st1 (cursor st1 + i)%nat), (stream st2 (cursor st2 + i)%nat).
  rewrite Hx, Hy, !add_jitter_nth, !nth_error_map, Hp. split; reflexivity.
Qed.

(** C7. A row whose effort label is no key of the effort mapping gets no
    effort rank from [load_and_prepare_data] (NaN, neither zero nor a rank
    from one to five), and likewise for the impact label.  In the scatter
    plot built from the prepared frame such a row keeps its place in the
    call of its priority, with a NaN coordinate, and no marker is drawn for
    it; the plot is still produced. *)
Theorem unmapped_rank_absent (rows : list ProjectRecord) (m : Q)
        (st : RandomState) (r : ProjectRecord) :
  (~ In (Estimated_Effort r) (keys effort_mapping) ->
   Numerical_Effort (prepare r) = None) /\
  (~ In (Estimated_Impact r) (keys impact_mapping) ->
   Numerical_Impact (prepare r) = None) /\
  (~ In (Estimated_Effort r) (keys effort_mapping) \/
   ~ In (Estimated_Impact r) (keys impact_mapping) ->
   forall (call : ScatterCall) (i : nat),
     In call (fst (create_scatter_plot (fst (load_and_prepare_data rows))
                                       (snd (load_and_prepare_data rows)) m st)) ->
     nth_error (series_records (fst (load_and_prepare_data rows)) call) i
     = Some (prepare r) ->
     nth_error (drawn call) i = Some None).
Proof.
  assert (He : ~ In (Estimated_Effort r) (keys effort_mapping) ->
               Numerical_Effort (prepare r) = None).
  { intros H. unfold prepare. cbn [Numerical_Effort].
    now rewrite (series_map_missing _ _ H). }
  assert (Hi : ~ In (Estimated_Impact r) (keys impact_mapping) ->
               Numerical_Impact (prepare r) = None).
  { intros H. unfold prepare. cbn [Numerical_Impact].
    now rewrite (series_map_missing _ _ H). }
  split; [exact He|]. split; [exact Hi|].
  intros Hmiss call i Hin Hpos.
  destruct (call_coordinates _ _ _ _ _ _ _ Hin Hpos) as [rx [ry [Hx Hy]]].
  unfold drawn. rewrite markers_nth, Hx, Hy.
  destruct Hmiss as [H|H].
  - rewrite (He H). reflexivity.
  - rewrite (Hi H). simpl. now destruct (jitter_value m _ rx).
Qed.

Lemma unmapped_rank_absent_witness :
  ~ In "Sprints" (keys effort_mapping) /\
  Numerical_Effort (prepare (project "P2" "Sprints" "Medium")) = None /\
  exists call : ScatterCall,
    nth_error sample_plots 1 = Some call /\
    nth_error (series_records sample_frame call) 1
    = Some (prepare (project "P2" "Sprints" "Medium")) /\
    nth_error (drawn call) 1 = Some None.
Proof.
  assert (Hkey : ~ In "Sprints" (keys effort_mapping))
    by (unfold keys, effort_mapping; simpl; intuition discriminate).
  destruct (unmapped_rank_absent sample_projects default_jitter_amount
              quarter_source (project "P2" "Sprints" "Medium"))
    as [He [_ Hdrawn]].
  split; [exact Hkey|]. split; [exact (He Hkey)|].
  eexists. split; [vm_compute; reflexivity|].
  split; [reflexivity|].
  apply (Hdrawn (or_introl Hkey)).
  - apply (nth_error_In _ 1). vm_compute. reflexivity.
  - reflexivity.
Defined.

(** A row whose two labels are keys of their mappings is drawn. *)
Lemma mapped_record_drawn (rows : list ProjectRecord) (m : Q)
      (st : RandomState) (r : ProjectRecord) (call : ScatterCall) (i : nat) :
  In (Estimated_Effort r) (keys effort_mapping) ->
  In (Estimated_Impact r) (keys impact_mapping) ->
  In call (fst (create_scatter_plot (fst (load_and_prepare_data rows))
                                    (snd (load_and_prepare_data rows)) m st)) ->
  nth_error (series_records (fst (load_and_prepare_data rows)) call) i
  = Some (prepare r) ->
  exists a b : Q, nth_error (drawn call) i = Some (Some (a, b)).
Proof.
  intros He Hi Hin Hpos.
  destruct (call_coordinates _ _ _ _ _ _ _ Hin Hpos) as [rx [ry [Hx Hy]]].
  unfold drawn. rewrite markers_nth, Hx, Hy.
  unfold prepare. cbn [Numerical_Effort Numerical_Impact]. unfold series_map.
  destruct (lookup effort_mapping (Estimated_Effort r)) as [e|] eqn:Ee.
  2:{ apply lookup_none_iff in Ee. contradiction. }
  destruct (lookup impact_mapping (Estimated_Impact r)) as [j|] eqn:Ej.
  2:{ apply lookup_none_iff in Ej. contradiction. }
  cbn [option_map jitter_value]. eauto.
Qed.

Lemma scatter_loop_draws (pairs : list (string * string))
      (df : list PreparedRecord) (m : Q) :
  forall (st : RandomState) (call : ScatterCall),
    In call (fst (scatter_loop pairs df m st)) ->
    exists base : nat,
      (cursor st <= base)%nat /\
      scatter_x call =
        fst (add_jitter (map Numerical_Effort (series_records df call)) m
                        {| stream := stream st; cursor := base |}) /\
      scatter_y call =
        fst (add_jitter (map Numerical_Impact (series_records df call)) m
                        {| stream := stream st;
                           cursor := base + length (series_records df call) |}).
Proof.
  induction pairs as [|[priority color] rest IH]; intros st call; simpl.
  - tauto.
  - destruct (scatter_loop rest df m _) as [calls st3] eqn:Hrest. simpl.
    intros [<-|Hin].
    + exists (cursor st). unfold series_records. simpl.
      rewrite !length_map. auto.
    + match type of Hrest with
      | scatter_loop rest df m ?s = _ =>
          destruct (IH s call) as [base [Hle [Hx Hy]]]
      end.
      * now rewrite Hrest.
      * exists base. simpl in Hle, Hx, Hy. split; [lia|]. auto.
Qed.

Lemma subset_filter (keep : PreparedRecord -> bool)
      (df : list PreparedRecord) (k : string) :
  (forall r, In r df -> Priority (record r) = k -> keep r = true) ->
  subset (filter keep df) k = subset df k.
Proof.
  unfold subset. induction df as [|r df IH]; intros Hkeep; simpl;
    [reflexivity|].
  assert (IH' : filter (fun r0 => String.eqb (Priority (record r0)) k)
                       (filter keep df)
                = filter (fun r0 => String.eqb (Priority (record r0)) k) df)
    by (apply IH; intros r' Hr'; apply Hkeep; now right).
  destruct (String.eqb_spec (Priority (record r)) k) as [Heq|Hne].
  - rewrite (Hkeep r (or_introl eq_refl) Heq). simpl.
    rewrite <- Heq at 1. rewrite String.eqb_refl. now rewrite IH'.
  - destruct (keep r); simpl; [|exact IH'].
    destruct (String.eqb_spec (Priority (record r)) k); [contradiction|].
    exact IH'.
Qed.

Lemma scatter_loop_same_subsets (pairs : list (string * string))
      (df df' : list PreparedRecord) (m : Q) :
  (forall k, In k (map fst pairs) -> subset df k = subset df' k) ->
  forall st : RandomState,
    scatter_loop pairs df m st = scatter_loop pairs df' m st.
Proof.
  induction pairs as [|[priority color] rest IH]; intros Hsame st;
    [reflexivity|].
  cbn [scatter_loop].
  rewrite (Hsame priority) by (simpl; auto).
  destruct (add_jitter (map Numerical_Effort (subset df' priority)) m st)
    as [xs st1].
  destruct (add_jitter (map Numerical_Impact (subset df' priority)) m st1)
    as [ys st2].
  rewrite (IH (fun k Hk => Hsame k (or_intror Hk)) st2). reflexivity.
Qed.

Lemma prepare_filter (keep : ProjectRecord -> bool) (rows : list ProjectRecord) :
  map prepare (filter keep rows)
  = filter (fun p => keep (record p)) (map prepare rows).
Proof.
  induction rows as [|r rows IH]; simpl; [reflexivity|].
  destruct (keep r); simpl; now rewrite IH.
Qed.

(** C10. The colour mapping that [load_and_prepare_data] returns has the
    keys "P1 🔥", "P2", "P3" and "P4" and no other.  The labels "P1" and
    "P5", both keys of [PRIORITY_TEXT_REPRESENTATION], are not among them.
    Each call of the scatter plot built from that mapping holds the jittered
    ranks of the rows whose priority is its label and of no other row, so a
    row with priority "P1" or "P5" is in no call; the plot is the one the
    frame gives with these rows taken out. *)
Theorem plain_p1_and_p5_unplotted (rows : list ProjectRecord) (m : Q)
        (st : RandomState) (r : ProjectRecord) :
  keys (snd (load_and_prepare_data rows)) = ["P1 🔥"; "P2"; "P3"; "P4"] /\
  In "P1" (keys PRIORITY_TEXT_REPRESENTATION) /\
  In "P5" (keys PRIORITY_TEXT_REPRESENTATION) /\
  (Priority r = "P1" \/ Priority r = "P5" ->
   ~ In (Priority r) (keys (snd (load_and_prepare_data rows))) /\
   forall call : ScatterCall,
     In call (fst (create_scatter_plot (fst (load_and_prepare_data rows))
                                       (snd (load_and_prepare_data rows)) m st)) ->
     ~ In (prepare r) (series_records (fst (load_and_prepare_data rows)) call) /\
     exists base : nat,
       scatter_x call =
         fst (add_jitter
                (map Numerical_Effort
                     (series_records (fst (load_and_prepare_data rows)) call))
                m {| stream := stream st; cursor := base |}) /\
       scatter_y call =
         fst (add_jitter
                (map Numerical_Impact
                     (series_records (fst (load_and_prepare_data rows)) call))
                m {| stream := stream st;
                     cursor := base
                               + length (series_records
                                           (fst (load_and_prepare_data rows))
                                           call) |})) /\
  create_scatter_plot (fst (load_and_prepare_data rows))
                      (snd (load_and_prepare_data rows)) m st
  = create_scatter_plot
      (fst (load_and_prepare_data
              (filter (fun x => negb (String.eqb (Priority x) "P1"
                                      || String.eqb (Priority x) "P5"))
                      rows)))
      (snd (load_and_prepare_data rows)) m st.
Proof.
  split; [reflexivity|].
  split; [unfold keys; simpl; auto|].
  split; [unfold keys; simpl; auto 10|].
  split.
  - intros Hp.
    assert (Hkey : ~ In (Priority r) (keys (snd (load_and_prepare_data rows)))).
    { unfold keys; simpl. destruct Hp as [-> | ->]; intuition discriminate. }
    split; [exact Hkey|].
    intros call Hin. split.
    + intros Hsub.
      apply subset_in in Hsub. destruct Hsub as [_ Heq]. simpl in Heq.
      apply Hkey. rewrite Heq.
      apply (item_key_in _ _ (scatter_c call)).
      exact (scatter_label_is_key _ _ m st call Hin).
    + destruct (scatter_loop_draws _ _ _ _ _ Hin) as [base [_ [Hx Hy]]].
      now exists base.
  - unfold create_scatter_plot, load_and_prepare_data. cbn [fst snd].
    rewrite prepare_filter. symmetry.
    apply scatter_loop_same_subsets.
    intros k Hk. apply subset_filter.
    intros p _ Hp. cbn beta.
    unfold items, priority_color_mapping in Hk. simpl in Hk.
    rewrite negb_true_iff, orb_false_iff, !String.eqb_neq.
    destruct Hk as [<-|[<-|[<-|[<-|[]]]]]; rewrite Hp; split; discriminate.
Qed.

Lemma plain_p1_and_p5_unplotted_witness :
  Priority (project "P5" "Weeks" "Very High") = "P5" /\
  exists call : ScatterCall,
    nth_error sample_plots 0 = Some call /\
    scatter_label call = "P1 🔥" /\
    ~ In (prepare (project "P5" "Weeks" "Very High"))
         (series_records sample_frame call).
Proof.
  split; [reflexivity|].
  eexists. split; [vm_compute; reflexivity|].
  split; [reflexivity|].
  destruct (plain_p1_and_p5_unplotted sample_projects default_jitter_amount
              quarter_source (project "P5" "Weeks" "Very High"))
    as [_ [_ [_ [Hno _]]]].
  destruct (Hno (or_intror eq_refl)) as [_ Hcalls].
  apply Hcalls.
  apply (nth_error_In _ 0). vm_compute. reflexivity.
Defined.

(** ** Axis labels of a pivoted frame *)

Lemma str_lt_iff (a b : string) : str_lt a b <-> String_as_OT.lt a b.
Proof. exact (String_as_OT.cmp_lt a b). Qed.

#[local] Instance str_lt_strict : StrictOrder str_lt.
Proof.
  split.
  - intros a H. apply str_lt_iff in H.
    apply (String_as_OT.lt_not_eq a a H). reflexivity.
  - intros a b c Hab Hbc. apply str_lt_iff.
    apply (String_as_OT.lt_trans a b c); now apply str_lt_iff.
Qed.

Lemma compare_gt_lt (a b : string) : String.compare a b = Gt -> str_lt b a.
Proof.
  intros H. unfold str_lt. rewrite String.compare_antisym, H. reflexivity.
Qed.

Lemma insert_unique_in (k x : string) (l : list string) :
  In x (insert_unique k l) <-> x = k \/ In x l.
Proof.
  induction l as [|h t IH]; simpl.
  - intuition.
  - destruct (String.compare k h) eqn:Hc; simpl.
    + apply String.compare_eq_iff in Hc. subst h. intuition.
    + intuition.
    + rewrite IH. intuition.
Qed.

Lemma insert_unique_hd (k h : string) (t : list string) :
  str_lt h k -> HdRel str_lt h t -> HdRel str_lt h (insert_unique k t).
Proof.
  intros Hhk Hhd. destruct t as [|h' t']; simpl.
  - now constructor.
  - inversion Hhd; subst.
    destruct (String.compare k h'); now constructor.
Qed.

Lemma insert_unique_sorted (k : string) (l : list string) :
  Sorted str_lt l -> Sorted str_lt (insert_unique k l).
Proof.
  induction l as [|h t IH]; simpl; intros Hs.
  - repeat constructor.
  - inversion Hs as [|? ? Hst Hhd]; subst.
    destruct (String.compare k h) eqn:Hc.
    + assumption.
    + constructor; [assumption | now constructor].
    + constructor; [now apply IH|].
      apply insert_unique_hd; [now apply compare_gt_lt | assumption].
Qed.

Lemma sorted_unique_in (x : string) (l : list string) :
  In x (sorted_unique l) <-> In x l.
Proof.
  induction l as [|h t IH]; simpl; [tauto|].
  rewrite insert_unique_in, IH. intuition.
Qed.

Lemma sorted_unique_sorted (l : list string) : Sorted str_lt (sorted_unique l).
Proof.
  induction l as [|h t IH]; simpl; [constructor|].
  now apply insert_unique_sorted.
Qed.

Lemma sorted_nodup (l : list string) : Sorted str_lt l -> NoDup l.
Proof.
  intros Hs. apply Sorted_StronglySorted in Hs.
  2:{ intros a b c. apply str_lt_strict. }
  induction Hs as [|h t Hst IH Hall]; constructor; [|assumption].
  intros Hin. rewrite Forall_forall in Hall.
  apply (StrictOrder_Irreflexive h). now apply Hall.
Qed.

Lemma sorted_unique_nodup (l : list string) : NoDup (sorted_unique l).
Proof. apply sorted_nodup, sorted_unique_sorted. Qed.

Lemma sorted_same_elements (l l' : list string) :
  Sorted str_lt l -> Sorted str_lt l' ->
  (forall x, In x l <-> In x l') -> l = l'.
Proof.
  intros Hl Hl' Hiff.
  assert (E : eqlistA eq l l').
  { apply (SortA_equivlistA_eqlistA (@eq_equivalence string) str_lt_strict);
      try assumption.
    { intros a a' -> b b' ->. reflexivity. }
    intros x. rewrite !InA_alt. split.
    - intros [y [-> Hy]]. exists y. split; [reflexivity | now apply Hiff].
    - intros [y [-> Hy]]. exists y. split; [reflexivity | now apply Hiff]. }
  clear Hl Hl' Hiff. induction E; [reflexivity | now f_equal].
Qed.

(** The labels of an axis depend on the set of values of the column alone,
    not on the order or the multiplicity of the rows. *)
Lemma sorted_unique_ext (l l' : list string) :
  (forall x, In x l <-> In x l') -> sorted_unique l = sorted_unique l'.
Proof.
  intros Hiff.
  apply sorted_same_elements; try apply sorted_unique_sorted.
  intros x. now rewrite !sorted_unique_in.
Qed.

(** ** Duplicate keys *)

Lemma key_eqb_eq (a b : string * string) : key_eqb a b = true <-> a = b.
Proof.
  destruct a as [a1 a2], b as [b1 b2]. unfold key_eqb. simpl.
  rewrite andb_true_iff, !String.eqb_eq. split.
  - now intros [-> ->].
  - now intros [= -> ->].
Qed.

Lemma has_duplicates_false_iff (l : list (string * string)) :
  has_duplicates l = false <-> NoDup l.
Proof.
  induction l as [|k t IH]; simpl.
  - split; [constructor | reflexivity].
  - rewrite orb_false_iff, IH. split.
    + intros [Hex Hnd]. constructor; [|assumption].
      intros Hin. enough (existsb (key_eqb k) t = true) by congruence.
      apply existsb_exists. exists k. split; [assumption|].
      now apply key_eqb_eq.
    + intros Hnd. inversion Hnd as [|? ? Hnotin Hnd']; subst.
      split; [|assumption].
      destruct (existsb (key_eqb k) t) eqn:Hex; [|reflexivity].
      apply existsb_exists in Hex. destruct Hex as [y [Hy Hk]].
      apply key_eqb_eq in Hk. subst y. contradiction.
Qed.

Lemma has_duplicates_true_iff (l : list (string * string)) :
  has_duplicates l = true <-> ~ NoDup l.
Proof.
  rewrite <- has_duplicates_false_iff.
  destruct (has_duplicates l); intuition congruence.
Qed.

(** ** Cells of a frame *)

Lemma position_some (k : string) (l : list string) :
  forall i : nat, position k l = Some i -> nth_error l i = Some k.
Proof.
  induction l as [|h t IH]; simpl; intros i; [discriminate|].
  destruct (String.eqb_spec h k) as [->|Hne].
  - now intros [= <-].
  - destruct (position k t) as [j|]; simpl; [|discriminate].
    intros [= <-]. simpl. now apply IH.
Qed.

Lemma position_in (k : string) (l : list string) :
  In k l -> exists i : nat, position k l = Some i.
Proof.
  induction l as [|h t IH]; simpl; [tauto|].
  intros Hin. destruct (String.eqb_spec h k) as [->|Hne]; [now exists O|].
  destruct Hin as [->|Hin]; [contradiction|].
  destruct (IH Hin) as [i ->]. now exists (S i).
Qed.

Lemma at_table (rows cols : list string) (g : string -> string -> option Z)
      (r c : string) :
  In r rows -> In c cols ->
  at_ {| index := rows; columns := cols;
         cells := map (fun i => map (fun c' => g i c') cols) rows |} r c
  = Some (g r c).
Proof.
  intros Hr Hc. unfold at_. simpl.
  destruct (position_in r rows Hr) as [i Hi].
  destruct (position_in c cols Hc) as [j Hj].
  rewrite Hi, Hj.
  rewrite nth_error_map, (position_some _ _ _ Hi). simpl.
  now rewrite nth_error_map, (position_some _ _ _ Hj).
Qed.

Lemma at_fillna (v : Z) (f : Frame) (r c : string) :
  at_ (fillna v f) r c = option_map (fill v) (at_ f r c).
Proof.
  unfold at_, fillna. simpl.
  destruct (position r (index f)) as [i|]; [|reflexivity].
  destruct (position c (columns f)) as [j|]; [|reflexivity].
  rewrite nth_error_map.
  destruct (nth_error (cells f) i) as [row|]; simpl; [|reflexivity].
  now rewrite nth_error_map.
Qed.

Lemma fill_zero (x : option Z) : fill 0 x = Some (nan_to_zero x).
Proof. now destruct x. Qed.

(** ** Sums *)

Lemma sum_same {A : Type} (l : list A) (F G : A -> Z) :
  (forall x, In x l -> F x = G x) -> sum_Z (map F l) = sum_Z (map G l).
Proof.
  intros H. f_equal. now apply map_ext_in.
Qed.

Lemma sum_update (l : list string) (a : string) (F G : string -> Z) :
  NoDup l -> In a l ->
  (forall x, In x l -> x <> a -> F x = G x) ->
  sum_Z (map F l) = (sum_Z (map G l) + F a - G a)%Z.
Proof.
  induction l as [|h t IH]; simpl; [tauto|].
  intros Hnd Hin Hext.
  inversion Hnd as [|? ? Hnotin Hnd']; subst.
  destruct (string_dec h a) as [->|Hne].
  - rewrite (sum_same t F G); [lia|].
    intros x Hx. apply Hext; [now right|].
    intros ->. contradiction.
  - destruct Hin as [Heq|Hin]; [contradiction|].
    rewrite (Hext h (or_introl eq_refl) Hne).
    rewrite (IH Hnd' Hin); [lia|].
    intros x Hx. apply Hext. now right.
Qed.

(** ** The pivot *)

Section PivotFacts.
Variables (idx col : ResolvedRow -> string) (val : ResolvedRow -> Z).

#[local] Abbreviation key := (pivot_key idx col).
#[local] Abbreviation cell_of := (cell idx col val).

Lemma cell_cons (r : ResolvedRow) (df : list ResolvedRow) (i c : string) :
  cell_of (r :: df) i c =
  if key_eqb (key r) (i, c) then Some (val r) else cell_of df i c.
Proof.
  unfold cell. simpl. now destruct (key_eqb (key r) (i, c)).
Qed.

Lemma cell_absent (df : list ResolvedRow) (i c : string) :
  (forall r, In r df -> key r <> (i, c)) -> cell_of df i c = None.
Proof.
  induction df as [|r df IH]; intros H; [reflexivity|].
  rewrite cell_cons.
  destruct (key_eqb (key r) (i, c)) eqn:Hk.
  - apply key_eqb_eq in Hk. exfalso. apply (H r); [now left | assumption].
  - apply IH. intros r' Hr'. apply H. now right.
Qed.

Lemma cell_present (df : list ResolvedRow) (r : ResolvedRow) :
  NoDup (map key df) -> In r df -> cell_of df (idx r) (col r) = Some (val r).
Proof.
  induction df as [|r0 df IH]; simpl; [tauto|].
  intros Hnd Hin. inversion Hnd as [|? ? Hnotin Hnd']; subst.
  rewrite cell_cons.
  destruct Hin as [->|Hin].
  - replace (key_eqb (key r) (idx r, col r)) with true; [reflexivity|].
    symmetry. now apply key_eqb_eq.
  - destruct (key_eqb (key r0) (idx r, col r)) eqn:Hk.
    + apply key_eqb_eq in Hk. exfalso. apply Hnotin.
      change (idx r, col r) with (key r) in Hk. rewrite Hk.
      now apply in_map.
    + now apply IH.
Qed.

Lemma pivot_without_duplicates (df : list ResolvedRow) :
  NoDup (map key df) ->
  pivot idx col val df =
  inr {| index := sorted_unique (map idx df);
         columns := sorted_unique (map col df);
         cells := map (fun i => map (fun c => cell_of df i c)
                                    (sorted_unique (map col df)))
                      (sorted_unique (map idx df)) |}.
Proof.
  intros Hnd. unfold pivot.
  apply has_duplicates_false_iff in Hnd. now rewrite Hnd.
Qed.

Lemma pivot_duplicate (df : list ResolvedRow) :
  ~ NoDup (map key df) ->
  pivot idx col val df =
  inl (ValueError "Index contains duplicate entries, cannot reshape").
Proof.
  intros Hdup. unfold pivot.
  apply has_duplicates_true_iff in Hdup. now rewrite Hdup.
Qed.

Lemma pivot_inr_unique (df : list ResolvedRow) (g : Frame) :
  on_frame (fillna 0) (pivot idx col val df) = inr g -> NoDup (map key df).
Proof.
  intros H. apply has_duplicates_false_iff. unfold pivot in H.
  destruct (has_duplicates (map key df)); [discriminate | reflexivity].
Qed.

Lemma pivot_filled_at (df : list ResolvedRow) (g : Frame) (r c : string) :
  on_frame (fillna 0) (pivot idx col val df) = inr g ->
  In r (map idx df) -> In c (map col df) ->
  at_ g r c = Some (Some (nan_to_zero (cell_of df r c))).
Proof.
  intros Hg Hr Hc.
  rewrite (pivot_without_duplicates df (pivot_inr_unique df g Hg)) in Hg.
  injection Hg as <-.
  rewrite at_fillna, at_table; try now apply sorted_unique_in.
  simpl. now rewrite fill_zero.
Qed.

Lemma pivot_filled_axes (df : list ResolvedRow) (g : Frame) :
  on_frame (fillna 0) (pivot idx col val df) = inr g ->
  index g = sorted_unique (map idx df) /\
  columns g = sorted_unique (map col df).
Proof.
  intros Hg.
  rewrite (pivot_without_duplicates df (pivot_inr_unique df g Hg)) in Hg.
  injection Hg as <-. now split.
Qed.

Lemma table_sum (rows cols : list string) (df : list ResolvedRow) :
  NoDup rows -> NoDup cols -> NoDup (map key df) ->
  (forall r, In r df -> In (idx r) rows /\ In (col r) cols) ->
  sum_Z (map (fun i => sum_Z (map (fun c => nan_to_zero (cell_of df i c)) cols))
             rows)
  = sum_Z (map val df).
Proof.
  intros Hrows Hcols. induction df as [|r df IH]; intros Hnd Hin.
  - simpl. rewrite (sum_same rows _ (fun _ => 0%Z)).
    + clear. induction rows; simpl; lia.
    + intros i _. clear. induction cols; simpl; lia.
  - simpl in Hnd. inversion Hnd as [|? ? Hnotin Hnd']; subst.
    destruct (Hin r (or_introl eq_refl)) as [Hri Hrc].
    assert (Hfree : cell_of df (idx r) (col r) = None).
    { apply cell_absent. intros r' Hr' Hk. apply Hnotin.
      change (idx r, col r) with (key r) in Hk. rewrite <- Hk.
      now apply in_map. }
    rewrite (sum_update rows (idx r) _
               (fun i => sum_Z (map (fun c => nan_to_zero (cell_of df i c)) cols)));
      try assumption.
    + rewrite (sum_update cols (col r) _
                 (fun c => nan_to_zero (cell_of df (idx r) c)));
        try assumption.
      * rewrite IH; [|assumption|intros r' Hr'; apply Hin; now right].
        rewrite cell_cons, Hfree.
        replace (key_eqb (key r) (idx r, col r)) with true
          by (symmetry; now apply key_eqb_eq).
        simpl. lia.
      * intros c Hc Hne. rewrite cell_cons.
        destruct (key_eqb (key r) (idx r, c)) eqn:Hk; [|reflexivity].
        apply key_eqb_eq in Hk. injection Hk as Hk. now symmetry in Hk.
    + intros i Hi Hne. apply sum_same. intros c Hc. rewrite cell_cons.
      destruct (key_eqb (key r) (i, c)) eqn:Hk; [|reflexivity].
      apply key_eqb_eq in Hk. injection Hk as Hk1 Hk2. now symmetry in Hk1.
Qed.

Lemma pivot_filled_sum (df : list ResolvedRow) (g : Frame) :
  on_frame (fillna 0) (pivot idx col val df) = inr g ->
  frame_sum g = sum_Z (map val df).
Proof.
  intros Hg. pose proof (pivot_inr_unique df g Hg) as Hnd.
  rewrite (pivot_without_duplicates df Hnd) in Hg. injection Hg as <-.
  unfold frame_sum, fillna. simpl. rewrite !map_map.
  rewrite <- (table_sum (sorted_unique (map idx df))
                        (sorted_unique (map col df)) df);
    try apply sorted_unique_nodup; try assumption.
  - apply sum_same. intros i _. rewrite !map_map. apply sum_same.
    intros c _. now destruct (cell_of df i c).
  - intros r Hr. split; apply sorted_unique_in; now apply in_map.
Qed.

End PivotFacts.

(** ** Bar charts *)

Lemma colormap_index_bound (n : nat) (x : Binary64.float) :
  (0 < n)%nat -> (colormap_index n x < n)%nat.
Proof.
  intros Hn. unfold colormap_index.
  destruct (Binary64.eqb _ _); [lia|].
  cbv zeta.
  match goal with
  | |- context [(n <=? ?k)%nat] => destruct (Nat.leb_spec n k); lia
  end.
Qed.

Lemma get_colors_length (n : nat) : length (get_colors n) = n.
Proof. unfold get_colors. now rewrite length_map, length_seq. Qed.

Lemma get_colors_nth (n j : nat) :
  (j < n)%nat ->
  nth_error (get_colors n) j =
  Some (nth (colormap_index (length tab20) (linspace01 n j)) tab20 "").
Proof.
  intros Hj. unfold get_colors.
  rewrite nth_error_map, nth_error_seq.
  destruct (Nat.ltb_spec j n); [reflexivity | lia].
Qed.

Lemma get_colors_palette (n : nat) (colour : string) :
  In colour (get_colors n) -> In colour tab20.
Proof.
  unfold get_colors. rewrite in_map_iff. intros [i [<- _]].
  apply nth_In. apply colormap_index_bound. simpl. lia.
Qed.

Lemma combine_nth_error {A B : Type} (l1 : list A) (l2 : list B) :
  forall (i : nat) (a : A) (b : B),
    nth_error l1 i = Some a -> nth_error l2 i = Some b ->
    nth_error (combine l1 l2) i = Some (a, b).
Proof.
  revert l2. induction l1 as [|x l1 IH]; intros [|y l2] [|i] a b; simpl;
    try discriminate.
  - now intros [= ->] [= ->].
  - apply IH.
Qed.

Lemma legend_nth (stacked : bool) (f : Frame) (j : nat) (k : string) :
  nth_error (columns f) j = Some k ->
  nth_error (chart_legend (plot_bar stacked f)) j =
  Some (k, nth (colormap_index (length tab20)
                               (linspace01 (length (columns f)) j)) tab20 "").
Proof.
  intros Hk. simpl. apply combine_nth_error; [assumption|].
  apply get_colors_nth. apply nth_error_Some. congruence.
Qed.



Lemma bar_of_cell (stacked : bool) (f : Frame) (r c : string) (h : option Z) :
  at_ f r c = Some h ->
  exists colour : string,
    In (c, colour) (chart_legend (plot_bar stacked f)) /\
    In {| bar_tick := r; bar_series := c; bar_color := colour; bar_height := h |}
       (chart_bars (plot_bar stacked f)).
Proof.
  unfold at_. intros Hat.
  destruct (position r (index f)) as [i|] eqn:Hi; [|discriminate].
  destruct (position c (columns f)) as [j|] eqn:Hj; [|discriminate].
  destruct (nth_error (cells f) i) as [row|] eqn:Hrow; [|discriminate].
  apply position_some in Hi. apply position_some in Hj.
  pose proof (legend_nth stacked f j c Hj) as Hleg.
  set (colour := nth (colormap_index (length tab20)
                        (linspace01 (length (columns f)) j)) tab20 "") in *.
  exists colour. split; [now apply nth_error_In in Hleg|].
  simpl in *. apply in_concat.
  eexists. split.
  - apply in_map_iff. exists (j, (c, colour)). split; [reflexivity|].
    apply (nth_error_In _ j). apply combine_nth_error; [|assumption].
    rewrite nth_error_seq.
    assert (Hlt : (j < length (combine (columns f)
                                       (get_colors (length (columns f)))))%nat)
      by (apply nth_error_Some; congruence).
    destruct (Nat.ltb_spec j (length (combine (columns f)
                                        (get_colors (length (columns f))))));
      [reflexivity | lia].
  - apply in_map_iff. exists (r, row). split.
    + simpl. unfold column_cell. now rewrite Hat.
    + apply (nth_error_In _ i). now apply combine_nth_error.
Qed.

(** ** Pivot aggregation *)

Lemma swap_nodup (l : list (string * string)) :
  NoDup l -> NoDup (map (fun p : string * string => (snd p, fst p)) l).
Proof.
  induction 1 as [|[a b] l Hnotin Hnd IH]; simpl; constructor; [|assumption].
  rewrite in_map_iff. intros [[a' b'] [[= -> ->] Hin]]. contradiction.
Qed.

Lemma swapped_keys_nodup (df : list ResolvedRow) :
  NoDup (map (pivot_key Closed_by YearMonth) df) ->
  NoDup (map (pivot_key YearMonth Closed_by) df).
Proof.
  intros Hnd.
  replace (map (pivot_key YearMonth Closed_by) df)
    with (map (fun p : string * string => (snd p, fst p))
              (map (pivot_key Closed_by YearMonth) df))
    by (rewrite map_map; reflexivity).
  now apply swap_nodup.
Qed.

Lemma swapped_keys_dup (df : list ResolvedRow) :
  ~ NoDup (map (pivot_key Closed_by YearMonth) df) ->
  ~ NoDup (map (pivot_key YearMonth Closed_by) df).
Proof.
  intros Hdup Hnd. apply Hdup.
  replace (map (pivot_key Closed_by YearMonth) df)
    with (map (fun p : string * string => (snd p, fst p))
              (map (pivot_key YearMonth Closed_by) df))
    by (rewrite map_map; reflexivity).
  now apply swap_nodup.
Qed.

Lemma unique_frame (idx col : ResolvedRow -> string) (df : list ResolvedRow) :
  NoDup (map (pivot_key idx col) df) ->
  exists g : Frame,
    on_frame (fillna 0) (pivot idx col ResolvedCount df) = inr g /\
    frame_sum g = sum_Z (map ResolvedCount df) /\
    (forall r : ResolvedRow,
        In r df -> at_ g (idx r) (col r) = Some (Some (ResolvedCount r))) /\
    (forall i c : string,
        In i (map idx df) -> In c (map col df) ->
        (forall r : ResolvedRow, In r df -> ~ (idx r = i /\ col r = c)) ->
        at_ g i c = Some (Some 0%Z)).
Proof.
  intros Hnd.
  destruct (on_frame (fillna 0) (pivot idx col ResolvedCount df))
    as [e|g] eqn:Hg.
  - rewrite (pivot_without_duplicates idx col ResolvedCount df Hnd) in Hg. discriminate.
  - exists g. split; [reflexivity|]. split; [|split].
    + now apply (pivot_filled_sum idx col ResolvedCount df).
    + intros r Hr.
      rewrite (pivot_filled_at idx col ResolvedCount df g _ _ Hg);
        try now apply in_map.
      now rewrite (cell_present idx col ResolvedCount df r Hnd Hr).
    + intros i c Hi Hc Hnone.
      rewrite (pivot_filled_at idx col ResolvedCount df g _ _ Hg Hi Hc).
      rewrite cell_absent; [reflexivity|].
      intros r Hr [= H1 H2]. apply (Hnone r Hr). now split.
Qed.

Lemma duplicate_frame (idx col : ResolvedRow -> string) (df : list ResolvedRow) :
  ~ NoDup (map (pivot_key idx col) df) ->
  on_frame (fillna 0) (pivot idx col ResolvedCount df) =
  inl (ValueError "Index contains duplicate entries, cannot reshape").
Proof.
  intros Hdup. now rewrite (pivot_duplicate idx col ResolvedCount df Hdup).
Qed.

(** C1, as the code has it.  When no two triples share their (entity,
    time-bucket) key, the pivot returns a grid whose cell at the key of each
    triple holds the count of that triple, and whose cell at a pair of
    observed keys that no triple carries holds zero.  When two triples share
    a key, [DataFrame.pivot] raises [ValueError] and no grid is produced:
    counts are neither added up nor overwritten.  So the triples A/Jan/3,
    A/Jan/2, B/Feb/5 are refused, while A/Jan/5, B/Feb/5 give the grid with
    rows A, B, columns Feb, Jan and cells A/Jan = 5, A/Feb = 0, B/Jan = 0,
    B/Feb = 5. *)
Theorem pivot_unique_or_error (df : list ResolvedRow) :
  (NoDup (map (pivot_key Closed_by YearMonth) df) ->
   (exists g : Frame,
       engineer_by_month df = inr g /\
       (forall r : ResolvedRow,
           In r df ->
           at_ g (Closed_by r) (YearMonth r) = Some (Some (ResolvedCount r))) /\
       (forall E T : string,
           In E (map Closed_by df) -> In T (map YearMonth df) ->
           (forall r : ResolvedRow,
               In r df -> ~ (Closed_by r = E /\ YearMonth r = T)) ->
           at_ g E T = Some (Some 0%Z))) /\
   (exists g : Frame,
       month_by_engineer df = inr g /\
       (forall r : ResolvedRow,
           In r df ->
           at_ g (YearMonth r) (Closed_by r) = Some (Some (ResolvedCount r))) /\
       (forall E T : string,
           In E (map Closed_by df) -> In T (map YearMonth df) ->
           (forall r : ResolvedRow,
               In r df -> ~ (Closed_by r = E /\ YearMonth r = T)) ->
           at_ g T E = Some (Some 0%Z)))) /\
  (~ NoDup (map (pivot_key Closed_by YearMonth) df) ->
   engineer_by_month df =
     inl (ValueError "Index contains duplicate entries, cannot reshape") /\
   month_by_engineer df =
     inl (ValueError "Index contains duplicate entries, cannot reshape")) /\
  engineer_by_month scenario =
    inl (ValueError "Index contains duplicate entries, cannot reshape") /\
  engineer_by_month scenario_merged =
    inr {| index := ["A"; "B"];
           columns := ["Feb"; "Jan"];
           cells := [ [Some 0%Z; Some 5%Z]; [Some 5%Z; Some 0%Z] ] |}.
Proof.
  split; [|split; [|split]].
  - intros Hnd. split.
    + destruct (unique_frame Closed_by YearMonth df Hnd)
        as [g [Hg [_ [Hat Hzero]]]].
      exists g. split; [exact Hg|]. split; [exact Hat|].
      intros E T HE HT Hnone. now apply Hzero.
    + destruct (unique_frame YearMonth Closed_by df (swapped_keys_nodup df Hnd))
        as [g [Hg [_ [Hat Hzero]]]].
      exists g. split; [exact Hg|]. split; [exact Hat|].
      intros E T HE HT Hnone. apply Hzero; try assumption.
      intros r Hr [H1 H2]. apply (Hnone r Hr). now split.
  - intros Hdup. split.
    + now apply duplicate_frame.
    + apply duplicate_frame. now apply swapped_keys_dup.
  - reflexivity.
  - reflexivity.
Qed.

Lemma pivot_unique_or_error_witness :
  NoDup (map (pivot_key Closed_by YearMonth) scenario_merged) /\
  ~ NoDup (map (pivot_key Closed_by YearMonth) scenario) /\
  engineer_by_month scenario_merged =
    inr {| index := ["A"; "B"];
           columns := ["Feb"; "Jan"];
           cells := [ [Some 0%Z; Some 5%Z]; [Some 5%Z; Some 0%Z] ] |} /\
  (exists g : Frame,
      engineer_by_month scenario_merged = inr g /\
      at_ g "A" "Jan" = Some (Some 5%Z) /\
      at_ g "B" "Feb" = Some (Some 5%Z)) /\
  month_by_engineer scenario =
    inl (ValueError "Index contains duplicate entries, cannot reshape").
Proof.
  assert (Hnd : NoDup (map (pivot_key Closed_by YearMonth) scenario_merged))
    by (apply has_duplicates_false_iff; reflexivity).
  assert (Hdup : ~ NoDup (map (pivot_key Closed_by YearMonth) scenario))
    by (apply has_duplicates_true_iff; reflexivity).
  split; [exact Hnd|]. split; [exact Hdup|]. split; [reflexivity|].
  split.
  - destruct (proj1 (pivot_unique_or_error scenario_merged) Hnd)
      as [[g [Hg [Hat _]]] _].
    exists g. split; [exact Hg|]. split.
    + apply (Hat (triple "A" "Jan" 5)). simpl. auto.
    + apply (Hat (triple "B" "Feb" 5)). simpl. auto.
  - exact (proj2 (proj1 (proj2 (pivot_unique_or_error scenario)) Hdup)).
Defined.

(** The scenario of C1 on the code: the two January counts of A meet in one
    cell and the pivot raises, for either orientation of the grid; no grid
    with A/Jan = 5 comes out. *)
Lemma duplicate_counts_not_summed :
  engineer_by_month scenario =
    inl (ValueError "Index contains duplicate entries, cannot reshape") /\
  month_by_engineer scenario =
    inl (ValueError "Index contains duplicate entries, cannot reshape") /\
  ~ (exists g : Frame,
        engineer_by_month scenario = inr g /\
        at_ g "A" "Jan" = Some (Some 5%Z)).
Proof.
  split; [reflexivity|]. split; [reflexivity|].
  intros [g [Hg _]]. discriminate Hg.
Qed.

Lemma frame_plot_data (stacked : bool) (f : Frame) :
  columns f <> [] -> frame_plot stacked f = inr (plot_bar stacked f).
Proof.
  unfold frame_plot. destruct (columns f); [congruence | reflexivity].
Qed.


(** C4, as the code has it.  When no two triples share their (entity,
    time-bucket) key, the pivot returns a grid in which every engineer and
    every month seen anywhere in the input meet in a cell that holds a
    number; the number is zero when no triple carries that pair.  The
    stacked and the grouped chart are then drawn and each has a bar for the
    cell whose height is the number: a zero cell is a bar of height zero,
    not a gap.  (With a repeated key there is no grid at all.) *)
Theorem pivot_grid_dense (df : list ResolvedRow) (E T : string) :
  NoDup (map (pivot_key Closed_by YearMonth) df) ->
  In E (map Closed_by df) ->
  In T (map YearMonth df) ->
  exists (g : Frame) (stacked_chart grouped_chart : BarChart) (v : Z),
    month_by_engineer df = inr g /\
    plot_resolved_items_per_month df = inr stacked_chart /\
    plot_grouped_resolved_items_per_month df = inr grouped_chart /\
    at_ g T E = Some (Some v) /\
    ((forall r : ResolvedRow,
         In r df -> ~ (Closed_by r = E /\ YearMonth r = T)) -> v = 0%Z) /\
    (exists colour : string,
        In {| bar_tick := T; bar_series := E;
              bar_color := colour; bar_height := Some v |}
           (chart_bars stacked_chart)) /\
    (exists colour : string,
        In {| bar_tick := T; bar_series := E;
              bar_color := colour; bar_height := Some v |}
           (chart_bars grouped_chart)).
Proof.
  intros Hnd HE HT.
  destruct (unique_frame YearMonth Closed_by df (swapped_keys_nodup df Hnd))
    as [g [Hg _]].
  pose proof (pivot_filled_at YearMonth Closed_by ResolvedCount df g T E Hg HT HE)
    as Hat.
  assert (Hcols : columns g <> []).
  { destruct (pivot_filled_axes _ _ _ _ _ Hg) as [_ ->].
    intros Hnil. apply (sorted_unique_in E) in HE. rewrite Hnil in HE.
    contradiction. }
  exists g, (plot_bar true g), (plot_bar false g),
    (nan_to_zero (cell YearMonth Closed_by ResolvedCount df T E)).
  unfold plot_resolved_items_per_month, plot_grouped_resolved_items_per_month,
    month_by_engineer.
  rewrite Hg. cbn [and_plot]. rewrite !frame_plot_data by assumption.
  split; [reflexivity|]. split; [reflexivity|]. split; [reflexivity|].
  split; [exact Hat|]. split; [|split].
  - intros Hnone. rewrite cell_absent; [reflexivity|].
    intros r Hr [= H1 H2]. apply (Hnone r Hr). now split.
  - destruct (bar_of_cell true g T E _ Hat) as [colour [_ Hbar]].
    now exists colour.
  - destruct (bar_of_cell false g T E _ Hat) as [colour [_ Hbar]].
    now exists colour.
Qed.

Lemma pivot_grid_dense_witness :
  NoDup (map (pivot_key Closed_by YearMonth) ordered_engineers) /\
  In "Chris" (map Closed_by ordered_engineers) /\
  In "2024-01" (map YearMonth ordered_engineers) /\
  exists (g : Frame) (chart : BarChart) (colour : string),
    month_by_engineer ordered_engineers = inr g /\
    plot_resolved_items_per_month ordered_engineers = inr chart /\
    at_ g "2024-01" "Chris" = Some (Some 0%Z) /\
    In {| bar_tick := "2024-01"; bar_series := "Chris";
          bar_color := colour; bar_height := Some 0%Z |}
       (chart_bars chart).
Proof.
  assert (Hnd : NoDup (map (pivot_key Closed_by YearMonth) ordered_engineers))
    by (apply has_duplicates_false_iff; reflexivity).
  assert (HE : In "Chris" (map Closed_by ordered_engineers)) by (simpl; auto).
  assert (HT : In "2024-01" (map YearMonth ordered_engineers)) by (simpl; auto).
  split; [exact Hnd|]. split; [exact HE|]. split; [exact HT|].
  destruct (pivot_grid_dense ordered_engineers "Chris" "2024-01" Hnd HE HT)
    as [g [c1 [c2 [v [Hg [Hc1 [_ [Hat [Hzero [[colour Hbar] _]]]]]]]]]].
  assert (Hv : v = 0%Z).
  { apply Hzero. simpl. intros r Hr.
    destruct Hr as [<-|[<-|[<-|[<-|[]]]]]; simpl; intros [H1 H2];
      discriminate. }
  subst v. exists g, c1, colour. auto.
Defined.

(** C4 on the code: in the scenario of the specification A and Feb are both
    observed, yet the two January counts of A make the pivot raise, and
    neither a grid nor a chart with a cell for A and Feb comes out. *)
Lemma observed_pair_without_cell :
  In "A" (map Closed_by scenario) /\
  In "Feb" (map YearMonth scenario) /\
  month_by_engineer scenario =
    inl (ValueError "Index contains duplicate entries, cannot reshape") /\
  plot_resolved_items_per_month scenario =
    inl (ValueError "Index contains duplicate entries, cannot reshape") /\
  plot_grouped_resolved_items_per_month scenario =
    inl (ValueError "Index contains duplicate entries, cannot reshape") /\
  ~ (exists (g : Frame) (v : Z),
        month_by_engineer scenario = inr g /\
        at_ g "Feb" "A" = Some (Some v)).
Proof.
  split; [simpl; auto|]. split; [simpl; auto|].
  split; [reflexivity|]. split; [reflexivity|]. split; [reflexivity|].
  intros [g [v [Hg _]]]. discriminate Hg.
Qed.

(** C5. When no two triples share their (entity, time-bucket) key, the
    pivot returns a grid, and the cells of the grid add up to the sum of the
    counts of the triples. *)
Theorem pivot_sum_preserved (df : list ResolvedRow) :
  NoDup (map (pivot_key Closed_by YearMonth) df) ->
  exists g : Frame,
    month_by_engineer df = inr g /\
    frame_sum g = sum_Z (map ResolvedCount df).
Proof.
  intros Hnd.
  destruct (unique_frame YearMonth Closed_by df (swapped_keys_nodup df Hnd))
    as [g [Hg [Hsum _]]].
  now exists g.
Qed.

Lemma pivot_sum_preserved_witness :
  NoDup (map (pivot_key Closed_by YearMonth) ordered_engineers) /\
  exists g : Frame,
    month_by_engineer ordered_engineers = inr g /\
    frame_sum g = 15%Z.
Proof.
  assert (Hnd : NoDup (map (pivot_key Closed_by YearMonth) ordered_engineers))
    by (apply has_duplicates_false_iff; reflexivity).
  split; [exact Hnd|].
  destruct (pivot_sum_preserved ordered_engineers Hnd) as [g [Hg Hsum]].
  exists g. split; [exact Hg|]. rewrite Hsum. reflexivity.
Defined.

(** ** Colours of the bar series *)

Lemma legend_colours (stacked : bool) (f : Frame) :
  map snd (chart_legend (plot_bar stacked f)) = get_colors (length (columns f)).
Proof.
  simpl. generalize (get_colors_length (length (columns f))).
  generalize (get_colors (length (columns f))) as colours.
  induction (columns f) as [|k ks IH]; intros [|c cs] Hlen; simpl in *;
    try reflexivity; try discriminate.
  f_equal. apply IH. now injection Hlen.
Qed.

Lemma colours_repeat (n : nat) :
  (length tab20 < n)%nat -> ~ NoDup (get_colors n).
Proof.
  intros Hn Hnd.
  assert (Hle : (length (get_colors n) <= length tab20)%nat).
  { apply NoDup_incl_length; [assumption|].
    intros c Hc. now apply get_colors_palette in Hc. }
  rewrite get_colors_length in Hle. lia.
Qed.





(** * Further properties of the code *)

(** ** Category mappers, continued *)

Lemma get_default_unmapped {V : Type} (d : dict V) (k : string) (default : V) :
  ~ In default (values d) -> get d k default = default -> ~ In k (keys d).
Proof.
  intros Hfresh Hget. apply lookup_none_iff.
  unfold get in Hget. destruct (lookup d k) as [v|] eqn:Hk; [|reflexivity].
  exfalso. apply Hfresh. subst v. apply lookup_some_in in Hk.
  unfold values. change default with (snd (k, default)). now apply in_map.
Qed.

Lemma lookup_key_some {V : Type} (d : dict V) (k : string) :
  In k (keys d) -> exists v : V, lookup d k = Some v.
Proof.
  intros Hin. destruct (lookup d k) as [v|] eqn:Hk; [now exists v|].
  apply lookup_none_iff in Hk. contradiction.
Qed.

Lemma lookup_injective {V : Type} (d : dict V) (a b : string) (v : V) :
  NoDup (values d) -> lookup d a = Some v -> lookup d b = Some v -> a = b.
Proof.
  induction d as [|[k w] d IH]; simpl; [discriminate|].
  intros Hnd Ha Hb. inversion Hnd as [|? ? Hnotin Hnd']; subst.
  destruct (String.eqb_spec k a) as [Hka|Hka];
    destruct (String.eqb_spec k b) as [Hkb|Hkb].
  - congruence.
  - exfalso. apply Hnotin. injection Ha as ->.
    apply lookup_some_in in Hb. unfold values.
    change v with (snd (b, v)). now apply in_map.
  - exfalso. apply Hnotin. injection Hb as ->.
    apply lookup_some_in in Ha. unfold values.
    change v with (snd (a, v)). now apply in_map.
  - now apply IH.
Qed.

Lemma staging_values_nodup : NoDup (values STAGING_TEXT_REPRESENTATION).
Proof.
  unfold values; simpl.
  repeat constructor; simpl; intuition discriminate.
Qed.

Lemma priority_values_nodup : NoDup (values PRIORITY_TEXT_REPRESENTATION).
Proof.
  unfold values; simpl.
  repeat constructor; simpl; intuition discriminate.
Qed.

(** X1. The fallback string of each mapper is the answer for the unmapped
    labels and for no other: no stage is displayed as "-----" and no
    priority as "unknown". *)
Theorem fallback_only_when_unmapped (label : string) :
  (get_staging_text label = "-----" <->
   ~ In label (keys STAGING_TEXT_REPRESENTATION)) /\
  (get_priority_text label = "unknown" <->
   ~ In label (keys PRIORITY_TEXT_REPRESENTATION)).
Proof.
  unfold get_staging_text, get_priority_text. split; split.
  - apply get_default_unmapped.
    unfold values; simpl. intuition discriminate.
  - apply get_missing.
  - apply get_default_unmapped.
    unfold values; simpl. intuition discriminate.
  - apply get_missing.
Qed.

(** X2. Two different known labels are never displayed alike: from the
    glyph string of a stage, or the text of a priority, the label can be
    told. *)
Theorem text_mappers_injective (a b : string) :
  (In a (keys STAGING_TEXT_REPRESENTATION) ->
   In b (keys STAGING_TEXT_REPRESENTATION) ->
   get_staging_text a = get_staging_text b -> a = b) /\
  (In a (keys PRIORITY_TEXT_REPRESENTATION) ->
   In b (keys PRIORITY_TEXT_REPRESENTATION) ->
   get_priority_text a = get_priority_text b -> a = b).
Proof.
  unfold get_staging_text, get_priority_text, get. split; intros Ha Hb.
  - destruct (lookup_key_some _ _ Ha) as [va Hva].
    destruct (lookup_key_some _ _ Hb) as [vb Hvb].
    rewrite Hva, Hvb. intros ->.
    exact (lookup_injective _ _ _ _ staging_values_nodup Hva Hvb).
  - destruct (lookup_key_some _ _ Ha) as [va Hva].
    destruct (lookup_key_some _ _ Hb) as [vb Hvb].
    rewrite Hva, Hvb. intros ->.
    exact (lookup_injective _ _ _ _ priority_values_nodup Hva Hvb).
Qed.

Lemma text_mappers_injective_witness :
  In "Beta Test" (keys STAGING_TEXT_REPRESENTATION) /\
  get_staging_text "Beta Test" = get_staging_text "Beta Test" /\
  "Beta Test" = "Beta Test".
Proof.
  assert (Hin : In "Beta Test" (keys STAGING_TEXT_REPRESENTATION))
    by (unfold keys; simpl; auto).
  split; [exact Hin|]. split; [reflexivity|].
  exact (proj1 (text_mappers_injective "Beta Test" "Beta Test")
               Hin Hin eq_refl).
Defined.

(** X3. The text [get_priority_text] displays for a label is a key of the
    colour mapping of [load_and_prepare_data] for the label "P1" and for no
    other label: of the displayed priorities only "P1 🔥" has a colour. *)
Theorem displayed_priority_coloured (label : string) :
  In (get_priority_text label) (keys priority_color_mapping) <-> label = "P1".
Proof.
  destruct (in_dec string_dec label (keys PRIORITY_TEXT_REPRESENTATION))
    as [Hin|Hout].
  - unfold keys in Hin; simpl in Hin.
    destruct Hin as [<-|[<-|[<-|[<-|[<-|[]]]]]];
      (split;
       [ intros H; vm_compute in H; intuition discriminate
       | intros H; try discriminate H; vm_compute; auto ]).
  - unfold get_priority_text. rewrite (get_missing _ _ _ Hout).
    split.
    + intros H. vm_compute in H. intuition discriminate.
    + intros ->. exfalso. apply Hout. unfold keys; simpl; auto.
Qed.

Lemma fallback_only_when_unmapped_witness :
  ~ In "Deployed" (keys STAGING_TEXT_REPRESENTATION) /\
  get_staging_text "Deployed" = "-----".
Proof.
  assert (Hout : ~ In "Deployed" (keys STAGING_TEXT_REPRESENTATION))
    by (unfold keys; simpl; intuition discriminate).
  split; [exact Hout|].
  exact (proj2 (proj1 (fallback_only_when_unmapped "Deployed")) Hout).
Defined.

Lemma displayed_priority_coloured_witness :
  In (get_priority_text "P1") (keys priority_color_mapping).
Proof.
  exact (proj2 (displayed_priority_coloured "P1") eq_refl).
Defined.

(** ** Jitter, continued *)

(** X4. [add_jitter] leaves the NaN elements where they are and makes no
    new one, returns nothing beyond the end of its input, and takes as many
    draws from the random source as the input has elements, NaN or not. *)
Theorem add_jitter_keeps_nan (series : Series) (m : Q) (st : RandomState)
        (i : nat) :
  (nth_error (fst (add_jitter series m st)) i = Some None <->
   nth_error series i = Some None) /\
  (nth_error (fst (add_jitter series m st)) i = None <->
   nth_error series i = None) /\
  cursor (snd (add_jitter series m st)) = (cursor st + length series)%nat /\
  stream (snd (add_jitter series m st)) = stream st.
Proof.
  rewrite add_jitter_nth.
  destruct (nth_error series i) as [[v|]|]; simpl.
  - repeat split; intros H; discriminate H.
  - repeat split; trivial.
  - repeat split; trivial; intros H; discriminate H.
Qed.

Lemma add_jitter_keeps_nan_witness :
  nth_error [Some 3; None] 1 = Some None /\
  nth_error (fst (add_jitter [Some 3; None] (1 # 10) quarter_source)) 1
  = Some None.
Proof.
  split; [reflexivity|].
  exact (proj2 (proj1 (add_jitter_keeps_nan [Some 3; None] (1 # 10)
                                            quarter_source 1)) eq_refl).
Defined.

(** ** Prepared frame and scatter plot, continued *)

Lemma rank_values_range (d : dict Z) (label : string) (q : Q) :
  Forall (fun n : Z => (1 <= n <= 5)%Z) (values d) ->
  option_map inject_Z (series_map d label) = Some q ->
  exists n : Z, q = inject_Z n /\ (1 <= n <= 5)%Z.
Proof.
  intros Hall Hq. unfold series_map in Hq.
  destruct (lookup d label) as [n|] eqn:Hn; [|discriminate].
  injection Hq as <-. exists n. split; [reflexivity|].
  apply lookup_some_in in Hn. rewrite Forall_forall in Hall. apply Hall.
  unfold values. change n with (snd (label, n)). now apply in_map.
Qed.

(** X6. The rank [load_and_prepare_data] gives a row is absent exactly when
    the label is no key of the mapping, and otherwise is a whole number from
    1 to 5; this holds for the effort and for the impact. *)
Theorem numeric_rank_range (r : ProjectRecord) :
  (Numerical_Effort (prepare r) = None <->
   ~ In (Estimated_Effort r) (keys effort_mapping)) /\
  (Numerical_Impact (prepare r) = None <->
   ~ In (Estimated_Impact r) (keys impact_mapping)) /\
  (forall q : Q,
      Numerical_Effort (prepare r) = Some q ->
      exists n : Z, q = inject_Z n /\ (1 <= n <= 5)%Z) /\
  (forall q : Q,
      Numerical_Impact (prepare r) = Some q ->
      exists n : Z, q = inject_Z n /\ (1 <= n <= 5)%Z).
Proof.
  unfold prepare. cbn [Numerical_Effort Numerical_Impact].
  split; [|split; [|split]].
  - rewrite <- lookup_none_iff. unfold series_map.
    destruct (lookup effort_mapping (Estimated_Effort r)); simpl;
      split; intros H; try discriminate H; reflexivity.
  - rewrite <- lookup_none_iff. unfold series_map.
    destruct (lookup impact_mapping (Estimated_Impact r)); simpl;
      split; intros H; try discriminate H; reflexivity.
  - intros q Hq. apply (rank_values_range effort_mapping (Estimated_Effort r) q); [|exact Hq].
    unfold values; simpl. repeat constructor; lia.
  - intros q Hq. apply (rank_values_range impact_mapping (Estimated_Impact r) q); [|exact Hq].
    unfold values; simpl. repeat constructor; lia.
Qed.

Lemma numeric_rank_range_witness :
  Numerical_Effort (prepare (project "P2" "Days" "High")) = Some (inject_Z 2) /\
  exists n : Z, inject_Z 2 = inject_Z n /\ (1 <= n <= 5)%Z.
Proof.
  split; [reflexivity|].
  exact (proj1 (proj2 (proj2 (numeric_rank_range
                                (project "P2" "Days" "High"))))
               (inject_Z 2) eq_refl).
Defined.

Lemma color_mapping_keys_nodup : NoDup (keys priority_color_mapping).
Proof.
  unfold keys; simpl.
  repeat constructor; simpl; intuition discriminate.
Qed.

Lemma color_mapping_values_nodup : NoDup (values priority_color_mapping).
Proof.
  unfold values; simpl.
  repeat constructor; simpl; intuition discriminate.
Qed.

Lemma colored_is_subset (rows : list ProjectRecord) (label color : string) :
  In (label, color) (items priority_color_mapping) ->
  colored (fst (load_and_prepare_data rows)) color
  = subset (fst (load_and_prepare_data rows)) label.
Proof.
  intros Hitem. unfold colored, subset. apply filter_ext_in.
  intros p Hp. simpl in Hp. apply in_map_iff in Hp. destruct Hp as [r [<- _]].
  unfold prepare. cbn [Color record]. unfold series_map.
  pose proof (lookup_in_nodup _ _ _ color_mapping_keys_nodup Hitem) as Hlabel.
  destruct (String.eqb_spec (Priority r) label) as [->|Hne].
  - rewrite Hlabel. apply String.eqb_refl.
  - destruct (lookup priority_color_mapping (Priority r)) as [c|] eqn:Hc;
      [|reflexivity].
    apply String.eqb_neq. intros ->. apply Hne.
    exact (lookup_injective _ _ _ _ color_mapping_values_nodup Hc Hlabel).
Qed.

(** X7. The [Color] column of the prepared frame agrees with the scatter
    plot: the call drawn in a colour holds the rows whose [Color] column is
    that colour, in the order of the frame, and no other row; its x and y
    sequences are the jittered effort and impact ranks of these rows. *)
Theorem color_column_matches_series (rows : list ProjectRecord) (m : Q)
        (st : RandomState) (call : ScatterCall) :
  In call (fst (create_scatter_plot (fst (load_and_prepare_data rows))
                                    (snd (load_and_prepare_data rows)) m st)) ->
  exists base : nat,
    scatter_x call =
      fst (add_jitter
             (map Numerical_Effort
                  (colored (fst (load_and_prepare_data rows)) (scatter_c call)))
             m {| stream := stream st; cursor := base |}) /\
    scatter_y call =
      fst (add_jitter
             (map Numerical_Impact
                  (colored (fst (load_and_prepare_data rows)) (scatter_c call)))
             m {| stream := stream st;
                  cursor := base
                            + length (colored (fst (load_and_prepare_data rows))
                                              (scatter_c call)) |}).
Proof.
  intros Hcall.
  destruct (scatter_loop_draws _ _ _ _ _ Hcall) as [base [_ [Hx Hy]]].
  apply scatter_label_is_key in Hcall.
  rewrite (colored_is_subset rows _ _ Hcall).
  now exists base.
Qed.

Lemma color_column_matches_series_witness :
  exists call : ScatterCall,
    nth_error sample_plots 1 = Some call /\
    scatter_c call = "orange" /\
    length (scatter_x call) = length (colored sample_frame "orange") /\
    length (colored sample_frame "orange") = 2%nat.
Proof.
  pose (call := nth 1 sample_plots
                    {| scatter_x := []; scatter_y := [];
                       scatter_c := ""; scatter_label := "" |}).
  assert (Hnth : nth_error sample_plots 1 = Some call)
    by (vm_compute; reflexivity).
  exists call. split; [exact Hnth|]. split; [reflexivity|].
  split; [|reflexivity].
  destruct (color_column_matches_series sample_projects default_jitter_amount
              quarter_source call (nth_error_In _ 1 Hnth)) as [base [Hx _]].
  rewrite Hx, add_jitter_length, length_map. reflexivity.
Defined.

Lemma scatter_loop_sizes (pairs : list (string * string))
      (df : list PreparedRecord) (m : Q) :
  forall st : RandomState,
    map (fun call => length (scatter_x call)) (fst (scatter_loop pairs df m st))
    = map (fun kc : string * string => length (subset df (fst kc))) pairs.
Proof.
  induction pairs as [|[priority color] rest IH]; intros st; simpl.
  - reflexivity.
  - destruct (scatter_loop rest df m _) as [calls st3] eqn:Hrest. simpl.
    f_equal.
    + rewrite offset_by_length; now rewrite ?length_map, ?length_seq.
    + match type of Hrest with
      | scatter_loop rest df m ?s = _ => specialize (IH s)
      end.
      now rewrite Hrest in IH.
Qed.

Lemma mapped_rows_split (df : list PreparedRecord) (k : string)
      (ks : list string) :
  ~ In k ks ->
  length (filter (fun r => existsb (String.eqb (Priority (record r))) (k :: ks))
                 df)
  = (length (subset df k)
     + length (filter (fun r => existsb (String.eqb (Priority (record r))) ks)
                      df))%nat.
Proof.
  intros Hk. unfold subset.
  set (F := fun r => existsb (String.eqb (Priority (record r))) (k :: ks)).
  set (G := fun r => existsb (String.eqb (Priority (record r))) ks).
  set (H := fun r => String.eqb (Priority (record r)) k).
  assert (HF : forall r, F r = H r || G r) by reflexivity.
  assert (Hdisjoint : forall r, H r = true -> G r = false).
  { intros r Hr. unfold H in Hr. apply String.eqb_eq in Hr.
    unfold G. destruct (existsb _ ks) eqn:Hex; [|reflexivity].
    apply existsb_exists in Hex. destruct Hex as [x [Hx Hpx]].
    apply String.eqb_eq in Hpx. exfalso. apply Hk. congruence. }
  clearbody F G H.
  induction df as [|r df IH]; cbn [filter length]; [reflexivity|].
  rewrite HF. destruct (H r) eqn:Hr.
  - rewrite (Hdisjoint r Hr). cbn [orb length]. now rewrite IH.
  - destruct (G r); cbn [orb length]; rewrite IH; lia.
Qed.

Lemma subset_sizes_total (df : list PreparedRecord)
      (pairs : list (string * string)) :
  NoDup (map fst pairs) ->
  list_sum (map (fun kc : string * string => length (subset df (fst kc))) pairs)
  = length (filter (fun r => existsb (String.eqb (Priority (record r)))
                                     (map fst pairs)) df).
Proof.
  induction pairs as [|[k c] rest IH]; intros Hnd.
  - simpl. induction df as [|r df IHdf]; simpl; auto.
  - simpl in Hnd. inversion Hnd as [|? ? Hnotin Hnd']; subst.
    change (map fst ((k, c) :: rest)) with (k :: map fst rest).
    rewrite (mapped_rows_split df k (map fst rest) Hnotin).
    rewrite <- (IH Hnd'). reflexivity.
Qed.

Lemma mapped_rows_permutation (df : list PreparedRecord) (k : string)
      (ks : list string) :
  ~ In k ks ->
  Permutation
    (subset df k
     ++ filter (fun r => existsb (String.eqb (Priority (record r))) ks) df)
    (filter (fun r => existsb (String.eqb (Priority (record r))) (k :: ks)) df).
Proof.
  intros Hk. unfold subset.
  set (F := fun r => existsb (String.eqb (Priority (record r))) (k :: ks)).
  set (G := fun r => existsb (String.eqb (Priority (record r))) ks).
  set (H := fun r => String.eqb (Priority (record r)) k).
  assert (HF : forall r, F r = H r || G r) by reflexivity.
  assert (Hdisjoint : forall r, H r = true -> G r = false).
  { intros r Hr. unfold H in Hr. apply String.eqb_eq in Hr.
    unfold G. destruct (existsb _ ks) eqn:Hex; [|reflexivity].
    apply existsb_exists in Hex. destruct Hex as [x [Hx Hpx]].
    apply String.eqb_eq in Hpx. exfalso. apply Hk. congruence. }
  clearbody F G H.
  induction df as [|r df IH]; cbn [filter]; [constructor|].
  rewrite HF. destruct (H r) eqn:Hr.
  - rewrite (Hdisjoint r Hr). cbn [orb app]. now constructor.
  - destruct (G r); cbn [orb]; [|exact IH].
    apply Permutation_sym, Permutation_cons_app, Permutation_sym. exact IH.
Qed.

Lemma subsets_permutation (df : list PreparedRecord) (ks : list string) :
  NoDup ks ->
  Permutation
    (concat (map (subset df) ks))
    (filter (fun r => existsb (String.eqb (Priority (record r))) ks) df).
Proof.
  induction ks as [|k ks IH]; intros Hnd.
  - simpl. induction df as [|r df IHdf]; simpl; [constructor | exact IHdf].
  - inversion Hnd as [|? ? Hnotin Hnd']; subst.
    cbn [map concat].
    eapply Permutation_trans; [|apply (mapped_rows_permutation df k ks Hnotin)].
    apply Permutation_app_head. now apply IH.
Qed.

Lemma scatter_loop_records (pairs : list (string * string))
      (df : list PreparedRecord) (m : Q) (st : RandomState) :
  map (series_records df) (fst (scatter_loop pairs df m st))
  = map (subset df) (map fst pairs).
Proof.
  rewrite <- (scatter_loop_legend pairs df m st) at 2.
  rewrite !map_map. reflexivity.
Qed.

(** X8. When the keys of the colour mapping are distinct, as those of a
    dictionary are, the calls of the scatter plot divide the rows whose
    priority is a key of the mapping among themselves: each call holds the
    jittered ranks of its own rows, and the rows of all calls together are
    the rows with a mapped priority, each one once.  So the calls hold one
    point for each such row. *)
Theorem scatter_points_count (df : list PreparedRecord)
        (mapping : dict string) (m : Q) (st : RandomState) :
  NoDup (keys mapping) ->
  (forall call : ScatterCall,
      In call (fst (create_scatter_plot df mapping m st)) ->
      exists base : nat,
        scatter_x call =
          fst (add_jitter (map Numerical_Effort (series_records df call)) m
                          {| stream := stream st; cursor := base |}) /\
        scatter_y call =
          fst (add_jitter (map Numerical_Impact (series_records df call)) m
                          {| stream := stream st;
                             cursor := base
                                       + length (series_records df call) |})) /\
  Permutation
    (concat (map (series_records df)
                 (fst (create_scatter_plot df mapping m st))))
    (filter (fun r => existsb (String.eqb (Priority (record r)))
                              (keys mapping)) df) /\
  list_sum (map (fun call => length (scatter_x call))
                (fst (create_scatter_plot df mapping m st)))
  = length (filter (fun r => existsb (String.eqb (Priority (record r)))
                                     (keys mapping)) df).
Proof.
  intros Hnd. split; [|split].
  - intros call Hcall.
    destruct (scatter_loop_draws _ _ _ _ _ Hcall) as [base [_ [Hx Hy]]].
    now exists base.
  - unfold create_scatter_plot, items. rewrite scatter_loop_records.
    now apply subsets_permutation.
  - unfold create_scatter_plot, items.
    rewrite scatter_loop_sizes. now apply subset_sizes_total.
Qed.

Lemma scatter_points_count_witness :
  NoDup (keys priority_color_mapping) /\
  list_sum (map (fun call => length (scatter_x call)) sample_plots) = 3%nat.
Proof.
  split; [exact color_mapping_keys_nodup|].
  exact (proj2 (proj2 (scatter_points_count sample_frame priority_color_mapping
                         default_jitter_amount quarter_source
                         color_mapping_keys_nodup))).
Defined.

Lemma scatter_loop_source (pairs : list (string * string))
      (df : list PreparedRecord) (m : Q) :
  forall st : RandomState,
    stream (snd (scatter_loop pairs df m st)) = stream st /\
    cursor (snd (scatter_loop pairs df m st)) =
    (cursor st
     + 2 * list_sum (map (fun call => length (scatter_x call))
                         (fst (scatter_loop pairs df m st))))%nat.
Proof.
  induction pairs as [|[priority color] rest IH]; intros st; simpl.
  - split; [reflexivity | lia].
  - destruct (scatter_loop rest df m _) as [calls st3] eqn:Hrest. simpl.
    match type of Hrest with
    | scatter_loop rest df m ?s = _ => destruct (IH s) as [Hs Hc]
    end.
    rewrite Hrest in Hs, Hc. simpl in Hs, Hc.
    split; [exact Hs|]. rewrite Hc.
    rewrite offset_by_length by now rewrite ?length_map, ?length_seq.
    rewrite !length_map. lia.
Qed.

(** X9. [create_scatter_plot] takes two draws from the random source for
    every point it hands to [scatter], one per axis, and none besides; the
    draws still to come are untouched. *)
Theorem scatter_entropy (df : list PreparedRecord) (mapping : dict string)
        (m : Q) (st : RandomState) :
  stream (snd (create_scatter_plot df mapping m st)) = stream st /\
  cursor (snd (create_scatter_plot df mapping m st)) =
  (cursor st
   + 2 * list_sum (map (fun call => length (scatter_x call))
                       (fst (create_scatter_plot df mapping m st))))%nat.
Proof. apply scatter_loop_source. Qed.

(** X10. The two coordinates of a point are jittered with different draws:
    in each call the efforts take a run of consecutive draws and the impacts
    the run that follows it, so the offsets along the two axes of a point
    never come from one draw. *)
Theorem axes_jittered_apart (df : list PreparedRecord) (mapping : dict string)
        (m : Q) (st : RandomState) (call : ScatterCall) (i : nat)
        (p : PreparedRecord) :
  In call (fst (create_scatter_plot df mapping m st)) ->
  nth_error (series_records df call) i = Some p ->
  exists base : nat,
    (cursor st <= base)%nat /\
    nth_error (scatter_x call) i =
      Some (jitter_value m (Numerical_Effort p) (stream st (base + i)%nat)) /\
    nth_error (scatter_y call) i =
      Some (jitter_value m (Numerical_Impact p)
              (stream st (base + length (series_records df call) + i)%nat)) /\
    (base + i <> base + length (series_records df call) + i)%nat.
Proof.
  intros Hcall Hp.
  destruct (scatter_loop_draws _ _ _ _ _ Hcall) as [base [Hle [Hx Hy]]].
  exists base. split; [exact Hle|].
  rewrite Hx, Hy, !add_jitter_nth, !nth_error_map, Hp. simpl.
  split; [reflexivity|]. split; [reflexivity|].
  assert (i < length (series_records df call))%nat
    by (apply nth_error_Some; congruence).
  lia.
Qed.

Lemma axes_jittered_apart_witness :
  exists (call : ScatterCall) (base : nat),
    nth_error sample_plots 1 = Some call /\
    nth_error (series_records sample_frame call) 0
    = Some (prepare (project "P2" "Days" "High")) /\
    nth_error (scatter_x call) 0 =
      Some (jitter_value default_jitter_amount (Some (inject_Z 2))
              (stream quarter_source (base + 0)%nat)).
Proof.
  pose (call := nth 1 sample_plots
                    {| scatter_x := []; scatter_y := [];
                       scatter_c := ""; scatter_label := "" |}).
  assert (Hnth : nth_error sample_plots 1 = Some call)
    by (vm_compute; reflexivity).
  exists call.
  destruct (axes_jittered_apart sample_frame priority_color_mapping
              default_jitter_amount quarter_source call
              0 (prepare (project "P2" "Days" "High")))
    as [base [_ [Hx _]]].
  - exact (nth_error_In _ 1 Hnth).
  - reflexivity.
  - exists base. split; [exact Hnth|].
    split; [reflexivity|]. exact Hx.
Defined.

Lemma prepared_rank_range (p : PreparedRecord) (rows : list ProjectRecord) :
  In p (fst (load_and_prepare_data rows)) ->
  (forall q : Q, Numerical_Effort p = Some q -> 1 <= q /\ q <= 5) /\
  (forall q : Q, Numerical_Impact p = Some q -> 1 <= q /\ q <= 5).
Proof.
  simpl. rewrite in_map_iff. intros [r [<- _]].
  unfold prepare. cbn [Numerical_Effort Numerical_Impact].
  split; intros q Hq.
  - destruct (rank_values_range effort_mapping (Estimated_Effort r) q)
      as [n [-> Hn]]; [unfold values; simpl; repeat constructor; lia | exact Hq |].
    split; [change 1 with (inject_Z 1) | change 5 with (inject_Z 5)];
      rewrite <- Zle_Qle; lia.
  - destruct (rank_values_range impact_mapping (Estimated_Impact r) q)
      as [n [-> Hn]]; [unfold values; simpl; repeat constructor; lia | exact Hq |].
    split; [change 1 with (inject_Z 1) | change 5 with (inject_Z 5)];
      rewrite <- Zle_Qle; lia.
Qed.

(** X11. With draws from [[0, 1)] and a magnitude [m >= 0], every marker
    drawn for the frame of [load_and_prepare_data] lies in the square from
    [1 - m / 2] to [5 + m / 2] on both axes: the jitter never moves a point
    further than half the magnitude outside the range of the ranks. *)
Theorem markers_within_rank_range (rows : list ProjectRecord) (m : Q)
        (st : RandomState) (call : ScatterCall) (i : nat) (a b : Q) :
  uniform01 st ->
  0 <= m ->
  In call (fst (create_scatter_plot (fst (load_and_prepare_data rows))
                                    (snd (load_and_prepare_data rows)) m st)) ->
  nth_error (drawn call) i = Some (Some (a, b)) ->
  (1 - m / 2 <= a /\ a <= 5 + m / 2) /\ (1 - m / 2 <= b /\ b <= 5 + m / 2).
Proof.
  intros Hst Hm Hcall Hdrawn.
  destruct (scatter_loop_draws _ _ _ _ _ Hcall) as [base [_ [Hx Hy]]].
  unfold drawn in Hdrawn. rewrite markers_nth in Hdrawn.
  rewrite Hx, Hy, !add_jitter_nth, !nth_error_map in Hdrawn.
  destruct (nth_error (series_records (fst (load_and_prepare_data rows)) call) i)
    as [p|] eqn:Hp; [|discriminate].
  assert (Hin : In p (fst (load_and_prepare_data rows))).
  { apply nth_error_In in Hp. unfold series_records in Hp.
    now apply subset_in in Hp. }
  destruct (prepared_rank_range p rows Hin) as [He Hi].
  cbn [option_map stream cursor] in Hdrawn.
  destruct (Numerical_Effort p) as [e|]; [|discriminate].
  destruct (Numerical_Impact p) as [j|]; [|discriminate].
  cbn [jitter_value option_map] in Hdrawn.
  injection Hdrawn as <- <-.
  destruct (He e eq_refl) as [He1 He5].
  destruct (Hi j eq_refl) as [Hi1 Hi5].
  match goal with
  | |- (_ <= e + (?r - _) * m /\ _) /\ _ =>
      destruct (Hst (base + i)%nat) as [Hr0 Hr1];
      destruct (jitter_bounds e r m Hr0 Hr1 Hm) as [Hlo Hhi]
  end.
  match goal with
  | |- _ /\ (_ <= j + (?r - _) * m /\ _) =>
      destruct (Hst (base + length (series_records
                                      (fst (load_and_prepare_data rows)) call)
                     + i)%nat) as [Hs0 Hs1];
      destruct (jitter_bounds j r m Hs0 Hs1 Hm) as [Hlo' Hhi']
  end.
  repeat split; lra.
Qed.

Lemma markers_within_rank_range_witness :
  uniform01 quarter_source /\
  0 <= default_jitter_amount /\
  exists (call : ScatterCall) (a b : Q),
    nth_error sample_plots 1 = Some call /\
    nth_error (drawn call) 0 = Some (Some (a, b)) /\
    1 - default_jitter_amount / 2 <= a /\ a <= 5 + default_jitter_amount / 2.
Proof.
  split; [exact quarter_source_uniform|]. split; [discriminate|].
  pose (call := nth 1 sample_plots
                    {| scatter_x := []; scatter_y := [];
                       scatter_c := ""; scatter_label := "" |}).
  assert (Hnth : nth_error sample_plots 1 = Some call)
    by (vm_compute; reflexivity).
  exists call. eexists. eexists.
  split; [exact Hnth|].
  assert (Hd : nth_error (drawn call) 0
               = Some (Some (158 # 80, 318 # 80))) by (vm_compute; reflexivity).
  split; [exact Hd|].
  apply (markers_within_rank_range sample_projects default_jitter_amount
           quarter_source call 0 (158 # 80) (318 # 80)).
  - exact quarter_source_uniform.
  - discriminate.
  - exact (nth_error_In _ 1 Hnth).
  - exact Hd.
Defined.

Lemma scatter_loop_empty (pairs : list (string * string)) (m : Q) :
  forall st : RandomState,
    scatter_loop pairs [] m st =
    (map (fun kc : string * string =>
            {| scatter_x := []; scatter_y := [];
               scatter_c := snd kc; scatter_label := fst kc |}) pairs,
     st).
Proof.
  induction pairs as [|[priority color] rest IH]; intros [draws pos]; simpl.
  - reflexivity.
  - rewrite !Nat.add_0_r. rewrite IH. reflexivity.
Qed.

(** X12. On a frame without rows [create_scatter_plot] still issues one
    call per key of the mapping, each without points, so that the legend is
    complete; it takes no draw from the random source. *)
Theorem scatter_of_empty_frame (mapping : dict string) (m : Q)
        (st : RandomState) :
  create_scatter_plot [] mapping m st =
  (map (fun kc : string * string =>
          {| scatter_x := []; scatter_y := [];
             scatter_c := snd kc; scatter_label := fst kc |}) (items mapping),
   st).
Proof.
  unfold create_scatter_plot. apply scatter_loop_empty.
Qed.

(** ** Pivot tables, continued *)

Lemma position_none (k : string) (l : list string) :
  ~ In k l -> position k l = None.
Proof.
  induction l as [|h t IH]; simpl; [reflexivity|].
  intros Hnot. destruct (String.eqb_spec h k) as [->|Hne]; [tauto|].
  rewrite IH; [reflexivity | tauto].
Qed.

Lemma position_some_in (k : string) (l : list string) (i : nat) :
  position k l = Some i -> In k l.
Proof. intros H. apply position_some in H. now apply nth_error_In in H. Qed.

Section PivotShape.
Variables (idx col : ResolvedRow -> string) (val : ResolvedRow -> Z).

Lemma pivot_filled_frame (df : list ResolvedRow) (g : Frame) :
  on_frame (fillna 0) (pivot idx col val df) = inr g ->
  g = {| index := sorted_unique (map idx df);
         columns := sorted_unique (map col df);
         cells := map (fun i => map (fun c => fill 0 (cell idx col val df i c))
                                    (sorted_unique (map col df)))
                      (sorted_unique (map idx df)) |}.
Proof.
  intros Hg.
  rewrite (pivot_without_duplicates idx col val df
             (pivot_inr_unique idx col val df g Hg)) in Hg.
  injection Hg as <-. unfold fillna. simpl. f_equal.
  rewrite map_map. apply map_ext. intros i. now rewrite map_map.
Qed.

Lemma pivot_filled_missing (df : list ResolvedRow) (g : Frame) (r c : string) :
  on_frame (fillna 0) (pivot idx col val df) = inr g ->
  ~ (In r (map idx df) /\ In c (map col df)) ->
  at_ g r c = None.
Proof.
  intros Hg Hnot. rewrite (pivot_filled_frame df g Hg). unfold at_. simpl.
  destruct (position r (sorted_unique (map idx df))) as [i|] eqn:Hi;
    [|reflexivity].
  destruct (position c (sorted_unique (map col df))) as [j|] eqn:Hj;
    [|reflexivity].
  exfalso. apply Hnot.
  apply position_some_in in Hi. apply position_some_in in Hj.
  split; now apply sorted_unique_in.
Qed.

Lemma cell_permutation (df df' : list ResolvedRow) (i c : string) :
  Permutation df df' ->
  NoDup (map (pivot_key idx col) df) ->
  cell idx col val df i c = cell idx col val df' i c.
Proof.
  intros Hperm Hnd.
  assert (Hnd' : NoDup (map (pivot_key idx col) df'))
    by (eapply Permutation_NoDup; [apply Permutation_map; eassumption | assumption]).
  destruct (find (fun r => key_eqb (pivot_key idx col r) (i, c)) df)
    as [r|] eqn:Hfind.
  - apply find_some in Hfind. destruct Hfind as [Hin Hk].
    apply key_eqb_eq in Hk. injection Hk as <- <-.
    rewrite (cell_present idx col val df r Hnd Hin).
    rewrite (cell_present idx col val df' r Hnd'); [reflexivity|].
    now apply (Permutation_in _ Hperm).
  - assert (Hnone : forall r, In r df -> pivot_key idx col r <> (i, c)).
    { intros r Hr Hk. apply (find_none _ _ Hfind) in Hr.
      apply key_eqb_eq in Hk. congruence. }
    rewrite (cell_absent idx col val df i c Hnone).
    rewrite (cell_absent idx col val df' i c); [reflexivity|].
    intros r Hr. apply Hnone.
    now apply (Permutation_in _ (Permutation_sym Hperm)).
Qed.

Lemma pivot_permutation (df df' : list ResolvedRow) :
  Permutation df df' ->
  pivot idx col val df = pivot idx col val df'.
Proof.
  intros Hperm. unfold pivot.
  assert (Hkeys : Permutation (map (pivot_key idx col) df)
                              (map (pivot_key idx col) df'))
    by now apply Permutation_map.
  destruct (has_duplicates (map (pivot_key idx col) df)) eqn:Hd.
  - apply has_duplicates_true_iff in Hd.
    replace (has_duplicates (map (pivot_key idx col) df')) with true;
      [reflexivity|].
    symmetry. apply has_duplicates_true_iff. intros Hnd. apply Hd.
    now apply (Permutation_NoDup (Permutation_sym Hkeys)).
  - apply has_duplicates_false_iff in Hd.
    replace (has_duplicates (map (pivot_key idx col) df')) with false.
    2:{ symmetry. apply has_duplicates_false_iff.
        now apply (Permutation_NoDup Hkeys). }
    assert (Hrows : sorted_unique (map idx df) = sorted_unique (map idx df')).
    { apply sorted_unique_ext. intros x.
      split; apply Permutation_in; [|apply Permutation_sym];
        now apply Permutation_map. }
    assert (Hcols : sorted_unique (map col df) = sorted_unique (map col df')).
    { apply sorted_unique_ext. intros x.
      split; apply Permutation_in; [|apply Permutation_sym];
        now apply Permutation_map. }
    cbv zeta. rewrite <- Hrows, <- Hcols. do 2 f_equal.
    apply map_ext. intros i. apply map_ext. intros c.
    now apply cell_permutation.
Qed.

End PivotShape.

(** X13. The two axes of a grid the pivot returns carry exactly the months
    and the engineers seen in the input, each once, in ascending order. *)
Theorem pivot_axes_sorted (df : list ResolvedRow) (g : Frame) :
  month_by_engineer df = inr g ->
  Sorted str_lt (index g) /\
  Sorted str_lt (columns g) /\
  NoDup (index g) /\
  NoDup (columns g) /\
  (forall T : string, In T (index g) <-> In T (map YearMonth df)) /\
  (forall E : string, In E (columns g) <-> In E (map Closed_by df)).
Proof.
  intros Hg.
  destruct (pivot_filled_axes _ _ _ _ _ Hg) as [-> ->].
  repeat split; try apply sorted_unique_sorted; try apply sorted_unique_nodup;
    try apply sorted_unique_in.
Qed.

Lemma pivot_axes_sorted_witness :
  exists g : Frame,
    month_by_engineer shuffled_engineers = inr g /\
    index g = ["2024-01"; "2024-02"] /\
    columns g = ["Andy"; "Chris"; "Luke"] /\
    Sorted str_lt (columns g).
Proof.
  eexists. split; [vm_compute; reflexivity|].
  split; [reflexivity|]. split; [reflexivity|].
  exact (proj1 (proj2 (pivot_axes_sorted shuffled_engineers _ eq_refl))).
Defined.

(** X15. A grid the pivot returns has no cell outside the observed keys:
    looking up a month or an engineer that occurs nowhere in the input finds
    nothing, and every other lookup finds a number. *)
Theorem pivot_lookup_defined_iff (df : list ResolvedRow) (g : Frame)
        (T E : string) :
  month_by_engineer df = inr g ->
  (at_ g T E = None <->
   ~ (In T (map YearMonth df) /\ In E (map Closed_by df))) /\
  (at_ g T E <> None -> exists v : Z, at_ g T E = Some (Some v)).
Proof.
  intros Hg.
  destruct (in_dec string_dec T (map YearMonth df)) as [HT|HT];
    destruct (in_dec string_dec E (map Closed_by df)) as [HE|HE];
    try (rewrite (pivot_filled_missing _ _ _ df g T E Hg) by tauto;
         split; [tauto | congruence]).
  rewrite (pivot_filled_at _ _ _ df g T E Hg HT HE).
  split; [split; [discriminate | tauto] | eauto].
Qed.

Lemma pivot_lookup_defined_iff_witness :
  exists g : Frame,
    month_by_engineer ordered_engineers = inr g /\
    ~ (In "2024-02" (map YearMonth ordered_engineers) /\
       In "Andy" (map Closed_by ordered_engineers)) /\
    at_ g "2024-02" "Andy" = None.
Proof.
  eexists. split; [vm_compute; reflexivity|].
  assert (Hout : ~ (In "2024-02" (map YearMonth ordered_engineers) /\
                    In "Andy" (map Closed_by ordered_engineers)))
    by (simpl; intuition discriminate).
  split; [exact Hout|].
  exact (proj2 (proj1 (pivot_lookup_defined_iff ordered_engineers _
                         "2024-02" "Andy" eq_refl)) Hout).
Defined.

Lemma find_ext {A : Type} (f f' : A -> bool) (l : list A) :
  (forall x, f x = f' x) -> find f l = find f' l.
Proof.
  intros H. induction l as [|x l IH]; simpl; [reflexivity|].
  now rewrite H, IH.
Qed.

Lemma cell_transposed (df : list ResolvedRow) (T E : string) :
  cell YearMonth Closed_by ResolvedCount df T E
  = cell Closed_by YearMonth ResolvedCount df E T.
Proof.
  unfold cell. f_equal. apply find_ext. intros r.
  unfold key_eqb, pivot_key. simpl. apply andb_comm.
Qed.

(** X16. The two orientations of the pivot agree: on an input one of them
    refuses the other refuses too, with the same error; otherwise the grid
    with engineers down and months across is the transpose of the grid with
    months down and engineers across. *)
Theorem orientations_transposed (df : list ResolvedRow) :
  match month_by_engineer df, engineer_by_month df with
  | inr g1, inr g2 =>
      index g1 = columns g2 /\
      columns g1 = index g2 /\
      forall T E : string, at_ g1 T E = at_ g2 E T
  | inl e1, inl e2 => e1 = e2
  | _, _ => False
  end.
Proof.
  destruct (has_duplicates (map (pivot_key Closed_by YearMonth) df)) eqn:Hd.
  - apply has_duplicates_true_iff in Hd.
    unfold month_by_engineer, engineer_by_month.
    rewrite (duplicate_frame Closed_by YearMonth df Hd).
    rewrite (duplicate_frame YearMonth Closed_by df (swapped_keys_dup df Hd)).
    reflexivity.
  - apply has_duplicates_false_iff in Hd.
    destruct (unique_frame Closed_by YearMonth df Hd) as [g2 [Hg2 _]].
    destruct (unique_frame YearMonth Closed_by df (swapped_keys_nodup df Hd))
      as [g1 [Hg1 _]].
    unfold month_by_engineer, engineer_by_month. rewrite Hg1, Hg2.
    destruct (pivot_filled_axes _ _ _ _ _ Hg1) as [Hi1 Hc1].
    destruct (pivot_filled_axes _ _ _ _ _ Hg2) as [Hi2 Hc2].
    split; [congruence|]. split; [congruence|].
    intros T E.
    destruct (in_dec string_dec T (map YearMonth df)) as [HT|HT];
      destruct (in_dec string_dec E (map Closed_by df)) as [HE|HE];
      try (rewrite (pivot_filled_missing _ _ _ df g1 T E Hg1) by tauto;
           rewrite (pivot_filled_missing _ _ _ df g2 E T Hg2) by tauto;
           reflexivity).
    rewrite (pivot_filled_at _ _ _ df g1 T E Hg1 HT HE).
    rewrite (pivot_filled_at _ _ _ df g2 E T Hg2 HE HT).
    now rewrite cell_transposed.
Qed.

(** X17. The grids and the charts do not depend on the order of the rows
    of the input: reordering the rows changes neither the result nor
    whether the pivot refuses. *)
Theorem pivot_order_independent (df df' : list ResolvedRow) :
  Permutation df df' ->
  month_by_engineer df = month_by_engineer df' /\
  engineer_by_month df = engineer_by_month df' /\
  plot_resolved_items_per_month df = plot_resolved_items_per_month df' /\
  plot_grouped_resolved_items_per_month df
  = plot_grouped_resolved_items_per_month df' /\
  plot_engineer_grouped_resolved_items df
  = plot_engineer_grouped_resolved_items df'.
Proof.
  intros Hperm.
  assert (H1 : month_by_engineer df = month_by_engineer df').
  { unfold month_by_engineer.
    now rewrite (pivot_permutation YearMonth Closed_by ResolvedCount df df'). }
  assert (H2 : engineer_by_month df = engineer_by_month df').
  { unfold engineer_by_month.
    now rewrite (pivot_permutation Closed_by YearMonth ResolvedCount df df'). }
  unfold plot_resolved_items_per_month, plot_grouped_resolved_items_per_month,
    plot_engineer_grouped_resolved_items.
  rewrite H1, H2. repeat split; reflexivity.
Qed.

Lemma pivot_order_independent_witness :
  Permutation scenario_merged (rev scenario_merged) /\
  month_by_engineer scenario_merged = month_by_engineer (rev scenario_merged).
Proof.
  assert (Hperm : Permutation scenario_merged (rev scenario_merged))
    by apply Permutation_rev.
  split; [exact Hperm|].
  exact (proj1 (pivot_order_independent _ _ Hperm)).
Defined.

Lemma pivot_of_rows_has_columns (idx col : ResolvedRow -> string)
      (df : list ResolvedRow) (g : Frame) :
  on_frame (fillna 0) (pivot idx col ResolvedCount df) = inr g ->
  df <> [] -> columns g <> [].
Proof.
  intros Hg Hdf. destruct (pivot_filled_axes _ _ _ _ _ Hg) as [_ ->].
  destruct df as [|r df]; [congruence|].
  intros Hnil. assert (Hin : In (col r) (sorted_unique (map col (r :: df))))
    by (apply sorted_unique_in; simpl; auto).
  rewrite Hnil in Hin. contradiction.
Qed.

(** X18. The three bar chart functions accept the same inputs.  On a frame
    without rows all three raise the [TypeError] of a plot without data.
    On a frame with rows of which no two share their engineer and month all
    three return a chart, the stacked and the grouped chart of the months
    having the same series colours and the same bars.  When two rows share
    their engineer and month all three raise the [ValueError] of the pivot,
    and none draws anything. *)
Theorem bar_charts_fail_together (df : list ResolvedRow) :
  (df = [] ->
   plot_resolved_items_per_month df =
     inl (TypeError "no numeric data to plot") /\
   plot_grouped_resolved_items_per_month df =
     inl (TypeError "no numeric data to plot") /\
   plot_engineer_grouped_resolved_items df =
     inl (TypeError "no numeric data to plot")) /\
  (df <> [] ->
   NoDup (map (pivot_key Closed_by YearMonth) df) ->
   exists c1 c2 c3 : BarChart,
     plot_resolved_items_per_month df = inr c1 /\
     plot_grouped_resolved_items_per_month df = inr c2 /\
     plot_engineer_grouped_resolved_items df = inr c3 /\
     chart_stacked c1 = true /\ chart_stacked c2 = false /\
     chart_stacked c3 = false /\
     chart_legend c1 = chart_legend c2 /\ chart_bars c1 = chart_bars c2) /\
  (~ NoDup (map (pivot_key Closed_by YearMonth) df) ->
   plot_resolved_items_per_month df =
     inl (ValueError "Index contains duplicate entries, cannot reshape") /\
   plot_grouped_resolved_items_per_month df =
     inl (ValueError "Index contains duplicate entries, cannot reshape") /\
   plot_engineer_grouped_resolved_items df =
     inl (ValueError "Index contains duplicate entries, cannot reshape")).
Proof.
  unfold plot_resolved_items_per_month, plot_grouped_resolved_items_per_month,
    plot_engineer_grouped_resolved_items, month_by_engineer, engineer_by_month.
  split; [|split].
  - intros ->. repeat split; reflexivity.
  - intros Hdf Hnd.
    destruct (unique_frame Closed_by YearMonth df Hnd) as [g2 [Hg2 _]].
    destruct (unique_frame YearMonth Closed_by df (swapped_keys_nodup df Hnd))
      as [g1 [Hg1 _]].
    pose proof (pivot_of_rows_has_columns _ _ df g1 Hg1 Hdf) as Hc1.
    pose proof (pivot_of_rows_has_columns _ _ df g2 Hg2 Hdf) as Hc2.
    rewrite Hg1, Hg2. cbn [and_plot].
    rewrite !frame_plot_data by assumption.
    exists (plot_bar true g1), (plot_bar false g1), (plot_bar false g2).
    repeat split; reflexivity.
  - intros Hdup.
    rewrite (duplicate_frame Closed_by YearMonth df Hdup).
    rewrite (duplicate_frame YearMonth Closed_by df (swapped_keys_dup df Hdup)).
    repeat split; reflexivity.
Qed.

Lemma bar_charts_fail_together_witness :
  ~ NoDup (map (pivot_key Closed_by YearMonth) scenario) /\
  scenario_merged <> [] /\
  NoDup (map (pivot_key Closed_by YearMonth) scenario_merged) /\
  plot_grouped_resolved_items_per_month scenario =
    inl (ValueError "Index contains duplicate entries, cannot reshape") /\
  plot_engineer_grouped_resolved_items [] =
    inl (TypeError "no numeric data to plot") /\
  exists c1 : BarChart, plot_resolved_items_per_month scenario_merged = inr c1.
Proof.
  assert (Hdup : ~ NoDup (map (pivot_key Closed_by YearMonth) scenario))
    by (apply has_duplicates_true_iff; reflexivity).
  assert (Hrows : scenario_merged <> []) by discriminate.
  assert (Hnd : NoDup (map (pivot_key Closed_by YearMonth) scenario_merged))
    by (apply has_duplicates_false_iff; reflexivity).
  split; [exact Hdup|]. split; [exact Hrows|]. split; [exact Hnd|].
  split; [|split].
  - exact (proj1 (proj2 (proj2 (proj2 (bar_charts_fail_together scenario))
                               Hdup))).
  - exact (proj2 (proj2 (proj1 (bar_charts_fail_together []) eq_refl))).
  - destruct (proj1 (proj2 (bar_charts_fail_together scenario_merged))
                    Hrows Hnd) as [c1 [c2 [c3 [H1 _]]]].
    now exists c1.
Defined.

(** ** Bars of a chart *)

Lemma map_indexed {A B : Type} (F : nat -> A -> B) (G : A -> B) (l : list A) :
  forall a : nat,
    (forall j x, nth_error l j = Some x -> F (a + j)%nat x = G x) ->
    map (fun e : nat * A => F (fst e) (snd e)) (combine (seq a (length l)) l)
    = map G l.
Proof.
  induction l as [|x l IH]; intros a H; simpl; [reflexivity|].
  f_equal.
  - rewrite <- (H O x eq_refl). now rewrite Nat.add_0_r.
  - apply IH. intros j y Hy. rewrite <- (H (S j) y Hy).
    now rewrite Nat.add_succ_comm.
Qed.

Lemma combine_map_self {A B : Type} (f : A -> B) (l : list A) :
  combine l (map f l) = map (fun x => (x, f x)) l.
Proof. induction l as [|x l IH]; simpl; [reflexivity | now rewrite IH]. Qed.

Lemma combine_nth_error_l {A B : Type} (l1 : list A) (l2 : list B) :
  forall (j : nat) (a : A) (b : B),
    nth_error (combine l1 l2) j = Some (a, b) -> nth_error l1 j = Some a.
Proof.
  revert l2. induction l1 as [|x l1 IH]; intros [|y l2] [|j] a b; simpl;
    try discriminate.
  - now intros [= -> _].
  - apply IH.
Qed.

Lemma legend_keys (stacked : bool) (f : Frame) :
  map fst (chart_legend (plot_bar stacked f)) = columns f.
Proof.
  simpl. generalize (get_colors_length (length (columns f))).
  generalize (get_colors (length (columns f))) as colours.
  induction (columns f) as [|k ks IH]; intros [|c cs] Hlen; simpl in *;
    try reflexivity; try discriminate.
  f_equal. apply IH. now injection Hlen.
Qed.

(** The bars of the chart of a table, series by series. *)
Lemma table_chart_bars (stacked : bool) (rows cols : list string)
      (h : string -> string -> option Z) :
  chart_bars (plot_bar stacked
                {| index := rows; columns := cols;
                   cells := map (fun i => map (fun c => h i c) cols) rows |})
  = concat (map (fun e : string * string =>
                   map (fun r => {| bar_tick := r; bar_series := fst e;
                                    bar_color := snd e;
                                    bar_height := h r (fst e) |}) rows)
                (combine cols (get_colors (length cols)))).
Proof.
  simpl. f_equal.
  set (legend := combine cols (get_colors (length cols))).
  rewrite <- (map_indexed
                (fun (j : nat) (e : string * string) =>
                   map (fun line : string * list (option Z) =>
                          {| bar_tick := fst line; bar_series := fst e;
                             bar_color := snd e;
                             bar_height := column_cell (snd line) j |})
                       (combine rows (map (fun i => map (fun c => h i c) cols)
                                          rows)))
                _ legend 0).
  - apply map_ext. intros [j [c colour]]. reflexivity.
  - intros j [c colour] Hj. simpl.
    apply combine_nth_error_l in Hj.
    rewrite combine_map_self, map_map. apply map_ext. intros r. simpl.
    f_equal. unfold column_cell. now rewrite nth_error_map, Hj.
Qed.

Lemma sum_concat {A : Type} (f : A -> Z) (ll : list (list A)) :
  sum_Z (map f (concat ll)) = sum_Z (map (fun l => sum_Z (map f l)) ll).
Proof.
  induction ll as [|l ll IH]; simpl; [reflexivity|].
  rewrite map_app. rewrite <- IH. clear IH.
  induction l as [|x l IHl]; simpl; [reflexivity|]. rewrite IHl. lia.
Qed.

Lemma sum_plus {A : Type} (f g : A -> Z) (l : list A) :
  sum_Z (map (fun x => (f x + g x)%Z) l)
  = (sum_Z (map f l) + sum_Z (map g l))%Z.
Proof. induction l as [|x l IH]; simpl; [reflexivity | rewrite IH; lia]. Qed.

Lemma sum_swap {A B : Type} (f : A -> B -> Z) (la : list A) (lb : list B) :
  sum_Z (map (fun a => sum_Z (map (fun b => f a b) lb)) la)
  = sum_Z (map (fun b => sum_Z (map (fun a => f a b) la)) lb).
Proof.
  induction la as [|a la IH]; simpl.
  - induction lb as [|b lb IHb]; simpl; [reflexivity | now rewrite <- IHb].
  - rewrite IH. now rewrite <- sum_plus.
Qed.




(** X20. The heights of all the bars of a chart add up to the sum of the
    counts of the input: the chart shows every resolved item once. *)
Theorem chart_heights_total (df : list ResolvedRow) (g : Frame)
        (stacked : bool) :
  month_by_engineer df = inr g ->
  sum_Z (map (fun bar => nan_to_zero (bar_height bar))
             (chart_bars (plot_bar stacked g)))
  = sum_Z (map ResolvedCount df).
Proof.
  intros Hg.
  pose proof (pivot_inr_unique _ _ _ df g Hg) as Hnd.
  rewrite (pivot_filled_frame _ _ _ df g Hg).
  rewrite table_chart_bars, sum_concat, map_map.
  set (rows := sorted_unique (map YearMonth df)).
  set (cols := sorted_unique (map Closed_by df)).
  rewrite <- (table_sum YearMonth Closed_by ResolvedCount rows cols df);
    try apply sorted_unique_nodup; try assumption.
  2:{ intros r Hr. split; apply sorted_unique_in; now apply in_map. }
  rewrite sum_swap.
  assert (Hkeys : map fst (combine cols (get_colors (length cols))) = cols).
  { generalize (get_colors_length (length cols)).
    generalize (get_colors (length cols)) as colours.
    induction cols as [|k ks IH]; intros [|c cs] Hlen; simpl in *;
      try reflexivity; try discriminate.
    f_equal. apply IH. now injection Hlen. }
  transitivity
    (sum_Z (map (fun b : string =>
                   sum_Z (map (fun a : string =>
                                 nan_to_zero
                                   (cell YearMonth Closed_by ResolvedCount df a b))
                              rows))
                (map fst (combine cols (get_colors (length cols)))))).
  2:{ now rewrite Hkeys. }
  rewrite map_map.
  apply sum_same. intros [c colour] _. rewrite map_map. simpl.
  apply sum_same. intros r _.
  now destruct (cell YearMonth Closed_by ResolvedCount df r c).
Qed.

Lemma chart_heights_total_witness :
  exists g : Frame,
    month_by_engineer ordered_engineers = inr g /\
    sum_Z (map (fun bar => nan_to_zero (bar_height bar))
               (chart_bars (plot_bar false g))) = 15%Z.
Proof.
  eexists. split; [vm_compute; reflexivity|].
  exact (chart_heights_total ordered_engineers _ false eq_refl).
Defined.

(** ** Colours of the bar series, continued *)

Lemma get_colors_distinct (n : nat) :
  (n <= length tab20)%nat -> NoDup (get_colors n).
Proof.
  intros Hn. simpl in Hn.
  do 21 (destruct n as [|n];
         [vm_compute; repeat constructor; simpl; intuition discriminate|]).
  lia.
Qed.

(** X21. The series of a chart all have different colours exactly when
    there are at most twenty of them; from the twenty-first series on some
    colour is shared. *)
Theorem series_colours_distinct_iff (stacked : bool) (f : Frame) :
  NoDup (map snd (chart_legend (plot_bar stacked f))) <->
  (length (columns f) <= 20)%nat.
Proof.
  rewrite legend_colours. split.
  - intros Hnd.
    destruct (Nat.le_gt_cases (length (columns f)) 20) as [Hle|Hgt];
      [exact Hle|].
    exfalso. now apply (colours_repeat (length (columns f))).
  - apply get_colors_distinct.
Qed.

Lemma series_colours_distinct_iff_witness :
  (length (columns {| index := ["2024-01"];
                      columns := ["Andy"; "Chris"; "Luke"];
                      cells := [[Some 1%Z; Some 2%Z; Some 3%Z]] |}) <= 20)%nat /\
  NoDup (map snd (chart_legend
                    (plot_bar true
                       {| index := ["2024-01"];
                          columns := ["Andy"; "Chris"; "Luke"];
                          cells := [[Some 1%Z; Some 2%Z; Some 3%Z]] |}))).
Proof.
  assert (Hle : (length (columns {| index := ["2024-01"];
                      columns := ["Andy"; "Chris"; "Luke"];
                      cells := [[Some 1%Z; Some 2%Z; Some 3%Z]] |}) <= 20)%nat)
    by (simpl; lia).
  split; [exact Hle|].
  exact (proj2 (series_colours_distinct_iff true _) Hle).
Defined.

(** ** Age of open tickets by assignee *)

Lemma categories_in (k : string) (labels : list string) :
  In k (categories labels) <-> In k labels.
Proof.
  induction labels as [|l rest IH]; simpl; [tauto|].
  rewrite filter_In, IH, negb_true_iff.
  destruct (String.eqb_spec l k) as [->|Hne]; [tauto|].
  intuition congruence.
Qed.

Lemma category_index_injective (labels : list string) (a b : string) :
  In a labels -> In b labels ->
  category_index labels a = category_index labels b -> a = b.
Proof.
  intros Ha Hb. unfold category_index.
  destruct (position_in a (categories labels)) as [i Hi];
    [now apply categories_in|].
  destruct (position_in b (categories labels)) as [j Hj];
    [now apply categories_in|].
  rewrite Hi, Hj. intros ->.
  apply position_some in Hi. apply position_some in Hj. congruence.
Qed.

Lemma barh_nth (y : list string) (width : list Q) (color : string) (i : nat)
      (label : string) (w : Q) :
  nth_error y i = Some label -> nth_error width i = Some w ->
  nth_error (barh y width color) i =
  Some {| rect_x := 0;
          rect_y := inject_Z (Z.of_nat (category_index y label)) - (4 # 10);
          rect_width := w;
          rect_height := 8 # 10;
          rect_color := color |}.
Proof.
  intros Hy Hw. unfold barh.
  now rewrite nth_error_map, (combine_nth_error y width i label w Hy Hw).
Qed.

Lemma age_bar_nth (df : list AgeRow) (i : nat) (r : AgeRow) :
  nth_error df i = Some r ->
  nth_error (age_bars (create_age_bar_chart df)) i =
  Some {| rect_x := 0;
          rect_y := inject_Z (Z.of_nat (category_index (map AssignedTo df)
                                                       (AssignedTo r)))
                    - (4 # 10);
          rect_width := Age_BusinessDays r;
          rect_height := 8 # 10;
          rect_color := "skyblue" |}.
Proof.
  intros Hr. simpl. apply barh_nth; now rewrite nth_error_map, Hr.
Qed.

Lemma age_text_nth (df : list AgeRow) (i : nat) (r : AgeRow) :
  nth_error df i = Some r ->
  nth_error (age_texts (create_age_bar_chart df)) i =
  Some {| text_x := Age_BusinessDays r;
          text_y := inject_Z (Z.of_nat (category_index (map AssignedTo df)
                                                       (AssignedTo r)))
                    - (4 # 10) + (8 # 10) / 2;
          text_s := str_of_int (TicketCount r) ++ " tickets" |}.
Proof.
  intros Hr. cbn [create_age_bar_chart age_texts].
  rewrite nth_error_map.
  rewrite (combine_nth_error _ _ i _ (TicketCount r)
             (age_bar_nth df i r Hr)); [reflexivity|].
  now rewrite nth_error_map, Hr.
Qed.

(** X22. [create_age_bar_chart] draws one sky-blue bar and writes one text
    per row, in the order of the rows.  The bar of a row starts at zero and
    is as long as the age of the row; the text of the row is anchored at the
    end of that bar, at the height of its middle, and reads the ticket count
    of the row followed by " tickets". *)
Theorem age_chart_rows (df : list AgeRow) (i : nat) (r : AgeRow) :
  nth_error df i = Some r ->
  length (age_bars (create_age_bar_chart df)) = length df /\
  length (age_texts (create_age_bar_chart df)) = length df /\
  exists (bar : Rectangle) (text : Text),
    nth_error (age_bars (create_age_bar_chart df)) i = Some bar /\
    nth_error (age_texts (create_age_bar_chart df)) i = Some text /\
    rect_x bar = 0 /\
    rect_width bar = Age_BusinessDays r /\
    rect_color bar = "skyblue" /\
    text_x text = rect_width bar /\
    text_y text == rect_y bar + rect_height bar / 2 /\
    text_y text ==
      inject_Z (Z.of_nat (category_index (map AssignedTo df) (AssignedTo r))) /\
    text_s text = str_of_int (TicketCount r) ++ " tickets".
Proof.
  intros Hr.
  assert (Hbars : length (age_bars (create_age_bar_chart df)) = length df).
  { simpl. unfold barh.
    rewrite length_map, length_combine, !length_map. apply Nat.min_id. }
  split; [exact Hbars|]. split.
  - cbn [create_age_bar_chart age_texts].
    rewrite length_map, length_combine.
    change (barh (map AssignedTo df) (map Age_BusinessDays df) "skyblue")
      with (age_bars (create_age_bar_chart df)).
    rewrite Hbars, length_map. apply Nat.min_id.
  - eexists. eexists.
    split; [exact (age_bar_nth df i r Hr)|].
    split; [exact (age_text_nth df i r Hr)|].
    cbn [rect_x rect_y rect_width rect_height rect_color text_x text_y text_s].
    repeat split; try reflexivity. field.
Qed.

Lemma age_chart_rows_witness :
  nth_error open_tickets 2 = Some (ticket "Chris" 4 1) /\
  exists text : Text,
    nth_error (age_texts (create_age_bar_chart open_tickets)) 2 = Some text /\
    text_x text = 4 /\
    text_s text = "1 tickets".
Proof.
  split; [reflexivity|].
  destruct (age_chart_rows open_tickets 2 (ticket "Chris" 4 1) eq_refl)
    as [_ [_ [bar [text [Hbar [Htext [_ [Hw [_ [Hx [_ [_ Hs]]]]]]]]]]]].
  exists text. split; [exact Htext|]. split.
  - rewrite Hx, Hw. reflexivity.
  - rewrite Hs. reflexivity.
Defined.

(** X23. Two rows of the age chart have their bars at the same height
    exactly when they name the same assignee: a person listed on several
    rows gets these bars drawn over each other, and different people never
    share a position. *)
Theorem age_bars_overlap_iff (df : list AgeRow) (i j : nat) (r1 r2 : AgeRow)
        (b1 b2 : Rectangle) :
  nth_error df i = Some r1 ->
  nth_error df j = Some r2 ->
  nth_error (age_bars (create_age_bar_chart df)) i = Some b1 ->
  nth_error (age_bars (create_age_bar_chart df)) j = Some b2 ->
  (rect_y b1 == rect_y b2 <-> AssignedTo r1 = AssignedTo r2).
Proof.
  intros H1 H2 Hb1 Hb2.
  rewrite (age_bar_nth df i r1 H1) in Hb1. injection Hb1 as <-.
  rewrite (age_bar_nth df j r2 H2) in Hb2. injection Hb2 as <-.
  cbn [rect_y]. split.
  - intros Hy.
    assert (Heq : inject_Z (Z.of_nat (category_index (map AssignedTo df)
                                                     (AssignedTo r1)))
                  == inject_Z (Z.of_nat (category_index (map AssignedTo df)
                                                        (AssignedTo r2))))
      by lra.
    apply (proj1 (inject_Z_injective _ _)) in Heq. apply Nat2Z.inj in Heq.
    apply (category_index_injective (map AssignedTo df)); try assumption.
    + apply in_map. now apply (nth_error_In _ i).
    + apply in_map. now apply (nth_error_In _ j).
  - intros ->. reflexivity.
Qed.

Lemma age_bars_overlap_iff_witness :
  exists b1 b2 : Rectangle,
    nth_error (age_bars (create_age_bar_chart open_tickets)) 0 = Some b1 /\
    nth_error (age_bars (create_age_bar_chart open_tickets)) 2 = Some b2 /\
    AssignedTo (ticket "Chris" 12 3) = AssignedTo (ticket "Chris" 4 1) /\
    rect_y b1 == rect_y b2.
Proof.
  eexists. eexists.
  split; [reflexivity|]. split; [reflexivity|]. split; [reflexivity|].
  exact (proj2 (age_bars_overlap_iff open_tickets 0 2
                  (ticket "Chris" 12 3) (ticket "Chris" 4 1) _ _
                  eq_refl eq_refl eq_refl eq_refl) eq_refl).
Defined.

Lemma string_length_append (a b : string) :
  String.length (a ++ b) = (String.length a + String.length b)%nat.
Proof. induction a as [|c a IH]; simpl; [reflexivity | now rewrite IH]. Qed.

Lemma append_cancel_r (a b t : string) : a ++ t = b ++ t -> a = b.
Proof.
  revert b. induction a as [|c a IH]; intros [|d b] H; simpl in H.
  - reflexivity.
  - apply (f_equal String.length) in H. simpl in H.
    rewrite string_length_append in H. lia.
  - apply (f_equal String.length) in H. simpl in H.
    rewrite string_length_append in H. lia.
  - injection H as -> H. f_equal. now apply IH.
Qed.

Lemma to_int_proper (n : Z) :
  Z.to_int n <> Decimal.Pos Decimal.Nil /\ Z.to_int n <> Decimal.Neg Decimal.Nil.
Proof.
  destruct n as [|p|p]; simpl; split; try discriminate;
    intros [= H]; now apply (DecimalPos.Unsigned.to_uint_nonnil p).
Qed.

Lemma str_of_int_injective (a b : Z) : str_of_int a = str_of_int b -> a = b.
Proof.
  unfold str_of_int. intros H.
  apply (f_equal NilZero.int_of_string) in H.
  destruct (to_int_proper a) as [Ha1 Ha2].
  destruct (to_int_proper b) as [Hb1 Hb2].
  rewrite !NilZero.isi in H by assumption.
  injection H as H. now apply DecimalZ.to_int_inj.
Qed.

(** X24. The text written beside a bar tells the ticket count of its row:
    two rows whose texts are equal have the same count. *)
Theorem age_text_tells_count (df : list AgeRow) (i j : nat) (r1 r2 : AgeRow)
        (t1 t2 : Text) :
  nth_error df i = Some r1 ->
  nth_error df j = Some r2 ->
  nth_error (age_texts (create_age_bar_chart df)) i = Some t1 ->
  nth_error (age_texts (create_age_bar_chart df)) j = Some t2 ->
  text_s t1 = text_s t2 ->
  TicketCount r1 = TicketCount r2.
Proof.
  intros H1 H2 Ht1 Ht2.
  rewrite (age_text_nth df i r1 H1) in Ht1. injection Ht1 as <-.
  rewrite (age_text_nth df j r2 H2) in Ht2. injection Ht2 as <-.
  cbn [text_s]. intros Hs.
  apply append_cancel_r in Hs. now apply str_of_int_injective.
Qed.

Lemma age_text_tells_count_witness :
  exists t1 t2 : Text,
    nth_error (age_texts (create_age_bar_chart open_tickets)) 0 = Some t1 /\
    nth_error (age_texts (create_age_bar_chart open_tickets)) 4 = Some t2 /\
    text_s t1 = text_s t2 /\
    TicketCount (ticket "Chris" 12 3) = TicketCount (ticket "Luke" 9 3).
Proof.
  eexists. eexists.
  split; [reflexivity|]. split; [reflexivity|]. split; [reflexivity|].
  exact (age_text_tells_count open_tickets 0 4
           (ticket "Chris" 12 3) (ticket "Luke" 9 3) _ _
           eq_refl eq_refl eq_refl eq_refl eq_refl).
Defined.

(** ** The engineers of the team *)

Lemma engineers_sorted : Sorted str_lt ENGINEERS.
Proof. repeat constructor. Qed.

Lemma strongly_sorted_filter (keep : string -> bool) (l : list string) :
  StronglySorted str_lt l -> StronglySorted str_lt (filter keep l).
Proof.
  induction 1 as [|h t Hst IH Hall]; simpl; [constructor|].
  destruct (keep h); [|assumption].
  constructor; [assumption|].
  rewrite Forall_forall in *. intros x Hx.
  apply filter_In in Hx. now apply Hall.
Qed.

Lemma sorted_filter (keep : string -> bool) (l : list string) :
  Sorted str_lt l -> Sorted str_lt (filter keep l).
Proof.
  intros Hs. apply StronglySorted_Sorted, strongly_sorted_filter.
  apply Sorted_StronglySorted; [|assumption].
  intros a b c. apply str_lt_strict.
Qed.

(** X25. When every row is closed by one of the [ENGINEERS], the chart has
    at most five series, each with a colour of its own, and its legend lists
    the engineers who closed something in the order of [ENGINEERS]. *)
Theorem team_chart_series (df : list ResolvedRow) (g : Frame)
        (stacked : bool) :
  month_by_engineer df = inr g ->
  (forall r : ResolvedRow, In r df -> In (Closed_by r) ENGINEERS) ->
  map fst (chart_legend (plot_bar stacked g))
  = filter (fun e => existsb (String.eqb e) (map Closed_by df)) ENGINEERS /\
  (length (chart_legend (plot_bar stacked g)) <= 5)%nat /\
  NoDup (map snd (chart_legend (plot_bar stacked g))).
Proof.
  intros Hg Hteam.
  destruct (pivot_filled_axes _ _ _ _ _ Hg) as [_ Hcols].
  assert (Hkeys : columns g
                  = filter (fun e => existsb (String.eqb e) (map Closed_by df))
                           ENGINEERS).
  { rewrite Hcols. apply sorted_same_elements.
    - apply sorted_unique_sorted.
    - apply sorted_filter, engineers_sorted.
    - intros x. rewrite sorted_unique_in, filter_In, existsb_exists. split.
      + intros Hx. split.
        * apply in_map_iff in Hx. destruct Hx as [r [<- Hr]]. now apply Hteam.
        * exists x. split; [assumption | apply String.eqb_refl].
      + intros [_ [y [Hy Hxy]]]. apply String.eqb_eq in Hxy. now subst y. }
  assert (Hlen : (length (columns g) <= 5)%nat).
  { rewrite Hkeys. apply (filter_length_le _ ENGINEERS). }
  split; [now rewrite legend_keys|]. split.
  - rewrite <- (length_map fst), legend_keys. exact Hlen.
  - rewrite legend_colours. apply get_colors_distinct. simpl. lia.
Qed.

Lemma team_chart_series_witness :
  exists g : Frame,
    month_by_engineer team_rows = inr g /\
    map fst (chart_legend (plot_bar true g))
    = [ "Andy Oxford"; "Chris Kelly"; "Neil Griffin" ].
Proof.
  eexists. split; [vm_compute; reflexivity|].
  destruct (team_chart_series team_rows _ true eq_refl) as [Hkeys _].
  - intros r Hr. simpl in Hr.
    destruct Hr as [<-|[<-|[<-|[<-|[]]]]]; simpl; auto 6.
  - exact Hkeys.
Defined.
